(** * A shallow embedding of the chess engine ([src/chess/engine.py])

    The engine keeps one mutable [ChessGame] object (an 8x8 board of optional
    pieces, the side to move, a status string and the move log) and exposes
    [restart] and [apply_move].  Methods that mutate the object are modelled
    in a state-and-exception monad over [ChessGame]; the read-only validators
    are functions of the object that return an [outcome]. *)

From Stdlib Require Import ZArith List String Ascii Bool Lia DecimalString.
From stdpp Require Import base list.
Import ListNotations.
Open Scope Z_scope.

(** ** Colours, piece types, exceptions and outcomes *)

Inductive Color : Type := white | black.

Inductive PieceType : Type := pawn | rook | knight | bishop | queen | king.

(** The messages of [IllegalMoveError], one constructor per [raise] site.
    [UnknownPieceType] is the fall-through of [_validate_piece_move], which
    no value of the closed type [PieceType] reaches. *)
Inductive IllegalMove : Type :=
| GameNotInProgress
| SameSquare
| SquareForm
| FileRange
| RankRange
| EmptySource (from_sq : string)
| WrongTurn (turn : Color)
| FriendlyCapture
| IllegalKnight
| IllegalBishop
| IllegalRook
| IllegalQueen
| IllegalKing
| UnknownPieceType
| PromotionNotAllowed
| IllegalPawnCapture
| IllegalPawnMoveStraight
| PawnBlocked
| IllegalPawnMove
| PathBlocked
| InvalidPromotion
| IndexOutOfBounds.

Inductive exn : Type :=
| IllegalMoveError (why : IllegalMove)
| IndexError
| KeyError.

(** What a Python call can do: return a value, raise an exception, or (for the
    one [while] loop of the engine, which is run on fuel) fail to finish. *)
Inductive outcome (A : Type) : Type :=
| Return (a : A)
| Raise (e : exn)
| OutOfFuel.

Arguments Return {A} a.
Arguments Raise {A} e.
Arguments OutOfFuel {A}.

Definition obind {A B : Type} (m : outcome A) (k : A -> outcome B) : outcome B :=
  match m with
  | Return a => k a
  | Raise e => Raise e
  | OutOfFuel => OutOfFuel
  end.

Definition illegal {A : Type} (why : IllegalMove) : outcome A :=
  Raise (IllegalMoveError why).

Declare Scope outcome_scope.
Delimit Scope outcome_scope with outcome.
Notation "'let*' x ':=' m 'in' k" := (obind m (fun x => k))
  (at level 10, x pattern, m at level 200, k at level 200) : outcome_scope.

(** ** Python primitives used by the engine *)

Module Py.

(** A [str] is a string of 8-bit characters read as Latin-1 code points.
    Code points above 255 are left out; none of them lowers to a letter
    a-h or to a promotion code, so the engine rejects them like any other
    character outside its ranges. *)
Definition ord (ch : ascii) : Z := Z.of_N (N_of_ascii ch).

Definition chr (z : Z) : ascii := ascii_of_N (Z.to_N z).

(** [str.lower] on one character: A-Z and the accented capitals of Latin-1
    move up by 32, everything else is kept. *)
Definition lower_char (ch : ascii) : ascii :=
  let n := ord ch in
  if ((65 <=? n) && (n <=? 90))
     || ((192 <=? n) && (n <=? 222) && negb (n =? 215))
  then chr (n + 32) else ch.

Fixpoint lower (s : string) : string :=
  match s with
  | EmptyString => EmptyString
  | String ch rest => String (lower_char ch) (lower rest)
  end.

(** [int(ch)] for a decimal digit character. *)
Definition int_digit (ch : ascii) : Z := ord ch - ord "0".

(** [str(z)] for an integer: its decimal numeral. *)
Definition str (z : Z) : string := NilZero.string_of_int (Z.to_int z).

(** [x or d] for an optional string: [None] and the empty string are falsy. *)
Definition or_else (x : option string) (d : string) : string :=
  match x with
  | None => d
  | Some EmptyString => d
  | Some s => s
  end.

(** List indexing: [-len <= i < 0] counts from the end, anything outside
    [-len, len) raises [IndexError]. *)
Definition index (len i : Z) : option nat :=
  if (0 <=? i) && (i <? len) then Some (Z.to_nat i)
  else if (- len <=? i) && (i <? 0) then Some (Z.to_nat (i + len))
  else None.

Definition getitem {A : Type} (l : list A) (i : Z) : outcome A :=
  match index (Z.of_nat (length l)) i with
  | Some n =>
      match l !! n with
      | Some x => Return x
      | None => Raise IndexError
      end
  | None => Raise IndexError
  end.

Definition setitem {A : Type} (l : list A) (i : Z) (v : A) : outcome (list A) :=
  match index (Z.of_nat (length l)) i with
  | Some n => Return (<[n:=v]> l)
  | None => Raise IndexError
  end.

End Py.

(** ** Coordinate conversion *)

Definition Index : Type := (Z * Z)%type.

Definition algebraic_to_index (square : string) : outcome Index :=
  match square with
  | String c0 (String c1 EmptyString) =>
      let file_char := Py.lower_char c0 in
      let rank_char := c1 in
      if (Py.ord file_char <? Py.ord "a") || (Py.ord file_char >? Py.ord "h")
      then illegal FileRange
      else if (Py.ord rank_char <? Py.ord "1") || (Py.ord rank_char >? Py.ord "8")
      then illegal RankRange
      else
        let col := Py.ord file_char - Py.ord "a" in
        let rank := Py.int_digit rank_char in
        let row := 8 - rank in
        Return (row, col)
  | _ => illegal SquareForm
  end.

Definition index_to_algebraic (idx : Index) : outcome string :=
  let '(row, col) := idx in
  if negb ((0 <=? row) && (row <=? 7) && (0 <=? col) && (col <=? 7))
  then illegal IndexOutOfBounds
  else
    let file_char := String (Py.chr (Py.ord "a" + col)) EmptyString in
    let rank_char := Py.str (8 - row) in
    Return (file_char ++ rank_char)%string.

(** A valid algebraic square: two characters, a file letter a-h in either
    case, then a rank digit 1-8. *)
Definition valid_square (s : string) : bool :=
  match s with
  | String f (String r EmptyString) =>
      (((Py.ord "a" <=? Py.ord f) && (Py.ord f <=? Py.ord "h"))
       || ((Py.ord "A" <=? Py.ord f) && (Py.ord f <=? Py.ord "H")))
      && (Py.ord "1" <=? Py.ord r) && (Py.ord r <=? Py.ord "8")
  | _ => false
  end.

Definition in_bounds (idx : Index) : Prop :=
  0 <= fst idx <= 7 /\ 0 <= snd idx <= 7.

(** ** Data model *)

Definition color_eqb (a b : Color) : bool :=
  match a, b with
  | white, white | black, black => true
  | _, _ => false
  end.

(** [Piece]: a frozen dataclass with fields [type] and [color]. *)
Record Piece : Type := mkPiece {
  piece_type : PieceType;
  piece_color : Color
}.

(** [MoveRecord]; the [piece] field holds [piece.to_dict()], the type and
    colour of the moved piece, kept here as a [Piece] value. *)
Record MoveRecord : Type := mkMoveRecord {
  moveNumber : Z;
  move_color : Color;
  from_square : string;
  to_square : string;
  move_capture : bool;
  move_promotion : option string;
  move_piece : Piece
}.

Abbreviation Board := (list (list (option Piece))).

Record ChessGame : Type := mkChessGame {
  board : Board;
  current_turn : Color;
  game_status : string;
  history : list MoveRecord
}.

(** [board[r][c]] *)
Definition board_get (b : Board) (idx : Index) : outcome (option Piece) :=
  (let* row := Py.getitem b (fst idx) in Py.getitem row (snd idx))%outcome.

(** [board[r][c] = v]: the row object is fetched, then updated in place. *)
Definition board_set (b : Board) (idx : Index) (v : option Piece) : outcome Board :=
  (let* row := Py.getitem b (fst idx) in
   let* row' := Py.setitem row (snd idx) v in
   Py.setitem b (fst idx) row')%outcome.

(** ** The state-and-exception monad of the methods of [ChessGame] *)

Definition M (A : Type) : Type := ChessGame -> ChessGame * outcome A.

Definition ret {A : Type} (a : A) : M A := fun self => (self, Return a).

Definition bind {A B : Type} (m : M A) (k : A -> M B) : M B :=
  fun self =>
    match m self with
    | (self', Return a) => k a self'
    | (self', Raise e) => (self', Raise e)
    | (self', OutOfFuel) => (self', OutOfFuel)
    end.

Definition raise {A : Type} (why : IllegalMove) : M A :=
  fun self => (self, illegal why).

(** A read-only computation on the object. *)
Definition read {A : Type} (f : ChessGame -> outcome A) : M A :=
  fun self => (self, f self).

Definition get_self : M ChessGame := fun self => (self, Return self).

Definition assign_board (b : Board) : M unit :=
  fun self => (mkChessGame b (current_turn self) (game_status self) (history self), Return tt).

Definition assign_current_turn (c : Color) : M unit :=
  fun self => (mkChessGame (board self) c (game_status self) (history self), Return tt).

Definition assign_game_status (st : string) : M unit :=
  fun self => (mkChessGame (board self) (current_turn self) st (history self), Return tt).

Definition assign_history (h : list MoveRecord) : M unit :=
  fun self => (mkChessGame (board self) (current_turn self) (game_status self) h, Return tt).

(** [self.board[r][c] = v] *)
Definition store_cell (idx : Index) (v : option Piece) : M unit :=
  fun self =>
    match board_set (board self) idx v with
    | Return b => assign_board b self
    | Raise e => (self, Raise e)
    | OutOfFuel => (self, OutOfFuel)
    end.

Declare Scope method_scope.
Delimit Scope method_scope with method.
Notation "'let*' x ':=' m 'in' k" := (bind m (fun x => k))
  (at level 10, x pattern, m at level 200, k at level 200) : method_scope.

(** [for x in l: body x] *)
Fixpoint for_each {A : Type} (l : list A) (body : A -> M unit) : M unit :=
  match l with
  | [] => ret tt
  | x :: rest => (let* _ := body x in for_each rest body)%method
  end.

Definition range (n : nat) : list Z := map Z.of_nat (seq 0 n).

Definition enumerate {A : Type} (l : list A) : list (Z * A) :=
  combine (range (length l)) l.

(** ** [ChessGame.restart] *)

Definition back_rank : list PieceType :=
  [rook; knight; bishop; queen; king; bishop; knight; rook].

Definition restart : M unit :=
  (let* _ := assign_board (map (fun _ => map (fun _ => None) (range 8)) (range 8)) in
   let* _ := assign_current_turn white in
   let* _ := assign_game_status "in_progress" in
   let* _ := assign_history [] in
   let* _ := for_each (enumerate back_rank)
        (fun '(col, p) => store_cell (0, col) (Some (mkPiece p black))) in
   let* _ := for_each (range 8)
        (fun col => store_cell (1, col) (Some (mkPiece pawn black))) in
   let* _ := for_each (range 8)
        (fun col => store_cell (6, col) (Some (mkPiece pawn white))) in
   for_each (enumerate back_rank)
        (fun '(col, p) => store_cell (7, col) (Some (mkPiece p white))))%method.

(** [ChessGame()]: the constructor fills the fields and calls [restart]. *)
Definition new_game : ChessGame :=
  fst (restart
         (mkChessGame (map (fun _ => map (fun _ => None) (range 8)) (range 8))
                      white "in_progress" [])).

(** ** Move validation (read-only methods) *)

Definition index_eqb (a b : Index) : bool :=
  (fst a =? fst b) && (snd a =? snd b).

Definition occupied (cell : option Piece) : bool :=
  match cell with
  | Some _ => true
  | None => false
  end.

(** Fuel for the loop of [_require_clear_path]: a list of 8 entries accepts
    the 16 indices -8..7, so on an 8x8 board the 17th step has either reached
    [to] or left the board. *)
Definition path_fuel : nat := 17.

(** The [while (r, c) != to] loop.  Next to its outcome it gives the cells
    whose content it asked for, in order. *)
Fixpoint clear_path_loop (fuel : nat) (self : ChessGame) (step_r step_c : Z)
    (to : Index) (r c : Z) : list Index * outcome unit :=
  match fuel with
  | O => ([], OutOfFuel)
  | S fuel' =>
      if negb (index_eqb (r, c) to) then
        match board_get (board self) (r, c) with
        | Return cell =>
            if occupied cell then ([(r, c)], illegal PathBlocked)
            else
              let '(seen, res) :=
                clear_path_loop fuel' self step_r step_c to (r + step_r) (c + step_c) in
              ((r, c) :: seen, res)
        | Raise e => ([(r, c)], Raise e)
        | OutOfFuel => ([(r, c)], OutOfFuel)
        end
      else ([], Return tt)
  end.

Definition sign_step (d : Z) : Z :=
  if d =? 0 then 0 else if d >? 0 then 1 else -1.

Definition clear_path_run (self : ChessGame) (fr to : Index) : list Index * outcome unit :=
  let dr := fst to - fst fr in
  let dc := snd to - snd fr in
  let step_r := sign_step dr in
  let step_c := sign_step dc in
  let r := fst fr + step_r in
  let c := snd fr + step_c in
  clear_path_loop path_fuel self step_r step_c to r c.

Definition _require_clear_path (self : ChessGame) (fr to : Index) : outcome unit :=
  snd (clear_path_run self fr to).

(** The cells [_require_clear_path] reads. *)
Definition cells_read (self : ChessGame) (fr to : Index) : list Index :=
  fst (clear_path_run self fr to).

Definition _validate_pawn_move (self : ChessGame) (piece : Piece) (fr to : Index)
    (dr dc : Z) (capture : bool) (promotion : option string) : outcome unit :=
  let direction := if color_eqb (piece_color piece) white then -1 else 1 in
  let start_row := if color_eqb (piece_color piece) white then 6 else 1 in
  if (match promotion with Some _ => true | None => false end)
     && negb ((fst to =? 0) || (fst to =? 7))
  then illegal PromotionNotAllowed
  else if capture then
    if negb (dr =? direction) || negb (Z.abs dc =? 1)
    then illegal IllegalPawnCapture
    else Return tt
  else if negb (dc =? 0) then illegal IllegalPawnMoveStraight
  else if dr =? direction then
    (let* dest := board_get (board self) to in
     if occupied dest then illegal PawnBlocked else Return tt)%outcome
  else if (fst fr =? start_row) && (dr =? 2 * direction) then
    let intermediate := (fst fr + direction, snd fr) in
    (let* mid := board_get (board self) intermediate in
     if occupied mid then illegal PawnBlocked
     else
       let* dest := board_get (board self) to in
       if occupied dest then illegal PawnBlocked else Return tt)%outcome
  else illegal IllegalPawnMove.

Definition _validate_piece_move (self : ChessGame) (piece : Piece) (fr to : Index)
    (capture : bool) (promotion : option string) : outcome unit :=
  let dr := fst to - fst fr in
  let dc := snd to - snd fr in
  match piece_type piece with
  | pawn => _validate_pawn_move self piece fr to dr dc capture promotion
  | knight =>
      if negb (existsb (index_eqb (Z.abs dr, Z.abs dc)) [(1, 2); (2, 1)])
      then illegal IllegalKnight
      else Return tt
  | bishop =>
      if negb (Z.abs dr =? Z.abs dc) || (dr =? 0)
      then illegal IllegalBishop
      else _require_clear_path self fr to
  | rook =>
      if negb ((dr =? 0) || (dc =? 0)) then illegal IllegalRook
      else if (dr =? 0) && (dc =? 0) then illegal IllegalRook
      else _require_clear_path self fr to
  | queen =>
      let is_diag := (Z.abs dr =? Z.abs dc) && negb (dr =? 0) in
      let is_straight := negb (Bool.eqb (dr =? 0) (dc =? 0)) in
      if negb (is_diag || is_straight) then illegal IllegalQueen
      else _require_clear_path self fr to
  | king =>
      if negb (Z.max (Z.abs dr) (Z.abs dc) =? 1) then illegal IllegalKing
      else Return tt
  end.

(** ** [ChessGame.apply_move] *)

Definition promotion_types : list (string * PieceType) :=
  [("q", queen); ("r", rook); ("b", bishop); ("n", knight)]%string.

(** Subscript of the promotion dict: [KeyError] on a missing key. *)
Fixpoint dict_getitem (d : list (string * PieceType)) (key : string) : outcome PieceType :=
  match d with
  | [] => Raise KeyError
  | (k, v) :: rest => if String.eqb k key then Return v else dict_getitem rest key
  end.

Definition is_pawn (p : Piece) : bool :=
  match piece_type p with
  | pawn => true
  | _ => false
  end.

(** [target is not None and target.color == piece.color] *)
Definition own_piece (target : option Piece) (piece : Piece) : bool :=
  match target with
  | Some t => color_eqb (piece_color t) (piece_color piece)
  | None => false
  end.

Definition other_color (c : Color) : Color :=
  if color_eqb c white then black else white.

Definition apply_move (from_sq to_sq : string) (promotion : option string) : M MoveRecord :=
  (let* self := get_self in
   if negb (String.eqb (game_status self) "in_progress") then raise GameNotInProgress
   else if String.eqb from_sq to_sq then raise SameSquare
   else
     let* fr := read (fun _ => algebraic_to_index from_sq) in
     let* to := read (fun _ => algebraic_to_index to_sq) in
     let* source := read (fun self => board_get (board self) fr) in
     match source with
     | None => raise (EmptySource from_sq)
     | Some piece =>
       if negb (color_eqb (piece_color piece) (current_turn self))
       then raise (WrongTurn (current_turn self))
       else
         let* target := read (fun self => board_get (board self) to) in
         if own_piece target piece then raise FriendlyCapture
         else
           let capture := occupied target in
           let* _ := read (fun self =>
                       _validate_piece_move self piece fr to capture promotion) in
           (* Execute move *)
           let* _ := store_cell to (Some piece) in
           let* _ := store_cell fr None in
           (* Apply promotion (only for pawn reaching last rank) *)
           let* promotion_applied :=
             (if is_pawn piece && ((fst to =? 0) || (fst to =? 7)) then
                let prom := Py.lower (Py.or_else promotion "q") in
                if negb (existsb (String.eqb prom) ["q"; "r"; "b"; "n"]%string)
                then raise InvalidPromotion
                else
                  let* new_type := read (fun _ => dict_getitem promotion_types prom) in
                  let* _ := store_cell to (Some (mkPiece new_type (piece_color piece))) in
                  ret (Some prom)
              else ret None) in
           (* Record history *)
           let* self := get_self in
           let move_number := Z.of_nat (length (history self)) / 2 + 1 in
           let record :=
             mkMoveRecord move_number (piece_color piece) from_sq to_sq capture
                          promotion_applied piece in
           let* _ := assign_history (history self ++ [record]) in
           (* Toggle turn *)
           let* self := get_self in
           let* _ := assign_current_turn (other_color (current_turn self)) in
           ret record
     end)%method.

(** The text carried by each [IllegalMoveError]. *)
Definition color_name (c : Color) : string :=
  match c with
  | white => "white"
  | black => "black"
  end.

Definition message (why : IllegalMove) : string :=
  match why with
  | GameNotInProgress => "Game is not in progress."
  | SameSquare => "from and to squares must be different."
  | SquareForm => "Square must be in algebraic form like 'e2'."
  | FileRange => "File must be between a and h."
  | RankRange => "Rank must be between 1 and 8."
  | EmptySource from_sq => "No piece at " ++ from_sq ++ "."
  | WrongTurn turn => "It is " ++ color_name turn ++ "'s turn."
  | FriendlyCapture => "Cannot capture your own piece."
  | IllegalKnight => "Illegal knight move."
  | IllegalBishop => "Illegal bishop move."
  | IllegalRook => "Illegal rook move."
  | IllegalQueen => "Illegal queen move."
  | IllegalKing => "Illegal king move."
  | UnknownPieceType => "Unknown piece type."
  | PromotionNotAllowed => "Promotion is only allowed when pawn reaches last rank."
  | IllegalPawnCapture => "Illegal pawn capture."
  | IllegalPawnMoveStraight => "Illegal pawn move (pawns move straight unless capturing)."
  | PawnBlocked => "Pawn move blocked."
  | IllegalPawnMove => "Illegal pawn move."
  | PathBlocked => "Path is blocked."
  | InvalidPromotion => "Invalid promotion piece. Use one of: q, r, b, n."
  | IndexOutOfBounds => "Index out of bounds."
  end%string.

(** Running a list of move requests; a rejected request leaves the object as
    the failed call left it, and play goes on. *)
Definition Request : Type := (string * string * option string)%type.

Definition after_request (self : ChessGame) (q : Request) : ChessGame :=
  let '(from_sq, to_sq, promotion) := q in
  fst (apply_move from_sq to_sq promotion self).

Definition play (self : ChessGame) (qs : list Request) : ChessGame :=
  fold_left after_request qs self.

(** ** Projections: [to_dict], [get_state], [get_history] *)

(** The JSON-serializable values the engine hands out; a [dict] keeps its
    items in insertion order. *)
#[warnings="-register-all"]
Inductive pyval : Type :=
| VStr (s : string)
| VInt (z : Z)
| VBool (b : bool)
| VDict (items : list (string * pyval))
| VList (elements : list pyval).

Definition type_name (t : PieceType) : string :=
  match t with
  | pawn => "pawn"
  | rook => "rook"
  | knight => "knight"
  | bishop => "bishop"
  | queen => "queen"
  | king => "king"
  end.

(** [Piece.to_dict] *)
Definition Piece_to_dict (p : Piece) : pyval :=
  VDict [("type", VStr (type_name (piece_type p)));
         ("color", VStr (color_name (piece_color p)))]%string.

(** [d[key] = v] on a dict: an existing key keeps its place, a new key goes
    to the end. *)
Fixpoint dict_setitem (d : list (string * pyval)) (key : string) (v : pyval)
    : list (string * pyval) :=
  match d with
  | [] => [(key, v)]
  | (k, old) :: rest =>
      if String.eqb k key then (k, v) :: rest
      else (k, old) :: dict_setitem rest key v
  end.

(** Truth value of an optional string. *)
Definition truthy (x : option string) : bool :=
  match x with
  | None => false
  | Some EmptyString => false
  | Some _ => true
  end.

(** [MoveRecord.to_dict] *)
Definition MoveRecord_to_dict (m : MoveRecord) : pyval :=
  let data :=
    [("moveNumber", VInt (moveNumber m));
     ("color", VStr (color_name (move_color m)));
     ("from", VStr (from_square m));
     ("to", VStr (to_square m));
     ("capture", VBool (move_capture m));
     ("piece", Piece_to_dict (move_piece m))]%string in
  if truthy (move_promotion m) then
    match move_promotion m with
    | Some code => VDict (dict_setitem data "promotion" (VStr code))
    | None => VDict data
    end
  else VDict data.

(** [for x in l: acc = body x acc], with exceptions. *)
Fixpoint for_fold {A S : Type} (l : list A) (body : A -> S -> outcome S) (acc : S)
    : outcome S :=
  match l with
  | [] => Return acc
  | x :: rest => (let* acc' := body x acc in for_fold rest body acc')%outcome
  end.

(** [ChessGame._board_to_response] *)
Definition _board_to_response (self : ChessGame) : outcome (list pyval) :=
  for_fold (range 8)
    (fun row items =>
       for_fold (range 8)
         (fun col items =>
            (let* piece := board_get (board self) (row, col) in
             match piece with
             | None => Return items
             | Some p =>
                 let* position := index_to_algebraic (row, col) in
                 Return (items ++ [VDict [("position", VStr position);
                                          ("piece", Piece_to_dict p)]%string])
             end)%outcome)
         items)
    [].

(** [ChessGame.get_state] *)
Definition get_state (self : ChessGame) : outcome pyval :=
  (let* listing := _board_to_response self in
   Return (VDict [("board", VList listing);
                  ("current_turn", VStr (color_name (current_turn self)));
                  ("game_status", VStr (game_status self))]%string))%outcome.

(** [ChessGame.get_history] *)
Definition get_history (self : ChessGame) : list pyval :=
  map MoveRecord_to_dict (history self).

(** ** Reachable states and the shape of the board *)

Inductive reachable : ChessGame -> Prop :=
| reach_new : reachable new_game
| reach_restart (self : ChessGame) :
    reachable self -> reachable (fst (restart self))
| reach_move (self : ChessGame) (from_sq to_sq : string) (promotion : option string) :
    reachable self -> reachable (fst (apply_move from_sq to_sq promotion self)).

Definition wf_board (b : Board) : Prop :=
  length b = 8%nat /\ Forall (fun row => length row = 8%nat) b.

(** The content of a cell of a well-formed board, by natural coordinates. *)
Definition cell_at (b : Board) (idx : Index) : option Piece :=
  match b !! Z.to_nat (fst idx) with
  | Some row =>
      match row !! Z.to_nat (snd idx) with
      | Some cell => cell
      | None => None
      end
  | None => None
  end.

(** ** Notions used in the statements *)

(** The standard initial layout, written out row by row (row 0 is rank 8). *)
Definition standard_board : Board :=
  [ map (fun t => Some (mkPiece t black))
        [rook; knight; bishop; queen; king; bishop; knight; rook];
    repeat (Some (mkPiece pawn black)) 8;
    repeat None 8;
    repeat None 8;
    repeat None 8;
    repeat None 8;
    repeat (Some (mkPiece pawn white)) 8;
    map (fun t => Some (mkPiece t white))
        [rook; knight; bishop; queen; king; bishop; knight; rook] ].

Definition count_pieces (b : Board) : nat :=
  length (List.filter occupied (concat b)).

(** The part of [apply_move] that follows the call of [_validate_piece_move]:
    the board writes, the promotion, the history record and the turn. *)
Definition execute_move (piece : Piece) (fr to : Index) (capture : bool)
    (promotion : option string) (from_sq to_sq : string) : M MoveRecord :=
  (let* _ := store_cell to (Some piece) in
   let* _ := store_cell fr None in
   let* promotion_applied :=
     (if is_pawn piece && ((fst to =? 0) || (fst to =? 7)) then
        let prom := Py.lower (Py.or_else promotion "q") in
        if negb (existsb (String.eqb prom) ["q"; "r"; "b"; "n"]%string)
        then raise InvalidPromotion
        else
          let* new_type := read (fun _ => dict_getitem promotion_types prom) in
          let* _ := store_cell to (Some (mkPiece new_type (piece_color piece))) in
          ret (Some prom)
      else ret None) in
   let* self := get_self in
   let move_number := Z.of_nat (length (history self)) / 2 + 1 in
   let record :=
     mkMoveRecord move_number (piece_color piece) from_sq to_sq capture
                  promotion_applied piece in
   let* _ := assign_history (history self ++ [record]) in
   let* self := get_self in
   let* _ := assign_current_turn (other_color (current_turn self)) in
   ret record)%method.

(** [apply_move] once the checks on status, squares, source and target have
    passed: validation, then execution. *)
Definition validate_then_execute (self : ChessGame) (piece : Piece) (fr to : Index)
    (target : option Piece) (promotion : option string) (from_sq to_sq : string)
    : ChessGame * outcome MoveRecord :=
  match _validate_piece_move self piece fr to (occupied target) promotion with
  | Return _ =>
      execute_move piece fr to (occupied target) promotion from_sq to_sq self
  | Raise e => (self, Raise e)
  | OutOfFuel => (self, OutOfFuel)
  end.

(** One row, one column or one diagonal. *)
Definition aligned (fr to : Index) : Prop :=
  fst to = fst fr \/ snd to = snd fr \/
  Z.abs (fst to - fst fr) = Z.abs (snd to - snd fr).

(** The distance of a move along its line: max(|dr|, |dc|). *)
Definition distance (fr to : Index) : Z :=
  Z.max (Z.abs (fst to - fst fr)) (Z.abs (snd to - snd fr)).

(** The cells strictly between [fr] and [to] along the line that joins them,
    nearest to [fr] first. *)
Definition between (fr to : Index) : list Index :=
  map (fun k => (fst fr + Z.of_nat k * Z.sgn (fst to - fst fr),
                 snd fr + Z.of_nat k * Z.sgn (snd to - snd fr)))
      (seq 1 (Z.to_nat (distance fr to - 1))).

Definition empty_cell (b : Board) (idx : Index) : Prop := cell_at b idx = None.

(** Walking a list of cells up to the first occupied one. *)
Fixpoint scan (b : Board) (cells : list Index) : list Index * outcome unit :=
  match cells with
  | [] => ([], Return tt)
  | idx :: rest =>
      if occupied (cell_at b idx) then ([idx], illegal PathBlocked)
      else let '(seen, res) := scan b rest in (idx :: seen, res)
  end.

(** The legal patterns of the sliding pieces: bishop |dr| = |dc| <> 0, rook
    exactly one of dr, dc is 0, queen either of the two. *)
Definition bishop_pattern (dr dc : Z) : Prop := Z.abs dr = Z.abs dc /\ dr <> 0.

Definition rook_pattern (dr dc : Z) : Prop :=
  (dr = 0 /\ dc <> 0) \/ (dr <> 0 /\ dc = 0).

Definition slider_pattern (t : PieceType) (dr dc : Z) : Prop :=
  match t with
  | bishop => bishop_pattern dr dc
  | rook => rook_pattern dr dc
  | queen => bishop_pattern dr dc \/ rook_pattern dr dc
  | _ => False
  end.

Definition last_rank (to : Index) : bool := (fst to =? 0) || (fst to =? 7).

(** Board [b'] is board [b] after the piece on [fr] has left and [placed]
    stands on [to]; every other cell is as before. *)
Definition moved (b b' : Board) (fr to : Index) (placed : Piece) : Prop :=
  wf_board b' /\
  forall idx, in_bounds idx ->
    cell_at b' idx =
    if index_eqb idx to then Some placed
    else if index_eqb idx fr then None
    else cell_at b idx.

(** What [apply_move] resolves the promotion code to. *)
Definition resolved_code (promotion : option string) : string :=
  Py.lower (Py.or_else promotion "q").

Definition valid_code (code : string) : bool :=
  existsb (String.eqb code) ["q"; "r"; "b"; "n"]%string.

(** A position in which a white pawn stands on a7, reached from the initial
    position by eight accepted moves. *)
Definition pawn_on_a7 : ChessGame :=
  play new_game
       [("a2", "a4", None); ("b7", "b5", None); ("a4", "b5", None);
        ("h7", "h6", None); ("b5", "b6", None); ("h6", "h5", None);
        ("b6", "a7", None); ("h5", "h4", None)]%string.

(** A position in which a white pawn stands on e4, off its start row. *)
Definition pawn_on_e4 : ChessGame :=
  play new_game [("e2", "e4", None); ("a7", "a6", None)]%string.

(** A position in which the diagonal from f1 to c4 is open. *)
Definition open_diagonal : ChessGame :=
  play new_game [("e2", "e4", None); ("e7", "e5", None)]%string.

(** The exceptions of the checks that precede validation. *)
Definition precheck_error (self : ChessGame) (from_sq : string) (e : exn) : Prop :=
  e = IndexError \/
  exists why, e = IllegalMoveError why /\
    In why [GameNotInProgress; SameSquare; SquareForm; FileRange; RankRange;
            EmptySource from_sq; WrongTurn (current_turn self); FriendlyCapture].

(** ** Notions used in the further properties *)

Definition pawn_direction (c : Color) : Z :=
  match c with white => -1 | black => 1 end.

Definition pawn_start_row (c : Color) : Z :=
  match c with white => 6 | black => 1 end.

(** The 64 cells in the order of the listing: row 0 first, column 0 first. *)
Definition all_cells : list Index :=
  flat_map (fun row => map (fun col => (row, col)) (range 8)) (range 8).

(** The lowercase name of an in-bounds cell. *)
Definition square_name (idx : Index) : string :=
  String (Py.chr (Py.ord "a" + snd idx)) (Py.str (8 - fst idx)).

Definition board_item (position : string) (p : Piece) : pyval :=
  VDict [("position", VStr position); ("piece", Piece_to_dict p)]%string.

(** The number of occupied cells among the 64, by coordinates. *)
Definition pieces_on (b : Board) : Z :=
  fold_right (fun idx n => (if occupied (cell_at b idx) then 1 else 0) + n) 0 all_cells.

(** Side to move and numbering after [n] half-moves. *)
Definition side_after (n : nat) : Color := if Nat.even n then white else black.

Definition knight_pattern (dr dc : Z) : Prop :=
  (Z.abs dr = 1 /\ Z.abs dc = 2) \/ (Z.abs dr = 2 /\ Z.abs dc = 1).

Definition king_pattern (dr dc : Z) : Prop := Z.max (Z.abs dr) (Z.abs dc) = 1.

(** The value a dict holds under a key, if any. *)
Fixpoint dict_lookup (d : list (string * pyval)) (key : string) : option pyval :=
  match d with
  | [] => None
  | (k, v) :: rest => if String.eqb k key then Some v else dict_lookup rest key
  end.

Definition dict_items (v : pyval) : list (string * pyval) :=
  match v with
  | VDict items => items
  | _ => []
  end.

(** The entry of the board listing for one cell: nothing for an empty
    cell, one item for an occupied one. *)
Definition listed (b : Board) (idx : Index) : list pyval :=
  match cell_at b idx with
  | Some p => [board_item (square_name idx) p]
  | None => []
  end.

(** A position in which a white knight stands on f3, in front of the pawn
    on f2. *)
Definition knight_on_f3 : ChessGame :=
  play new_game [("g1", "f3", None); ("a7", "a6", None)]%string.

(** ** Proof tactics *)

(** Use the known result of one step of a method body, then reduce the
    [match] that was waiting for it. *)
Ltac step H := rewrite H; cbn beta iota delta [negb].
Ltac open_apply_move :=
  unfold apply_move, bind, get_self, read, raise; cbn beta iota.

(** Decide one integer test of the goal from the hypotheses. *)
Ltac ztest :=
  match goal with
  | |- context [?a =? ?b] => destruct (Z.eqb_spec a b); try lia
  end.

(** Case analysis on the content of every cell the goal asks about. *)
Ltac cell_cases :=
  repeat match goal with
    | |- context [occupied (cell_at ?b ?i)] =>
        destruct (cell_at b i) eqn:?; cbn [occupied obind]
    end.

(** Name the eight elements of a list whose length [H] says is 8. *)
Ltac explode_list l H :=
  do 8 (destruct l as [| ? l]; [discriminate H |]);
  destruct l; [| discriminate H].

(** Case analysis on every integer test of the goal. *)
Ltac ztests :=
  rewrite ?Z.gtb_ltb in *;
  repeat match goal with
    | |- context [?a <=? ?b] => destruct (Z.leb_spec a b)
    | |- context [?a <? ?b] => destruct (Z.ltb_spec a b)
    | |- context [?a =? ?b] => destruct (Z.eqb_spec a b)
    end;
  simpl.

(** ** Lemmas on the Python primitives *)

Section PyLemmas.

Context {A : Type}.
Implicit Types (l : list A) (i : Z) (v : A).

Lemma index_in_range (len i : Z) :
  0 <= i < len -> Py.index len i = Some (Z.to_nat i).
Proof.
  intros H. unfold Py.index.
  destruct (0 <=? i) eqn:E1; [| lia].
  destruct (i <? len) eqn:E2; [reflexivity | lia].
Qed.

Lemma index_Some_lt (len i : Z) (n : nat) :
  Py.index len i = Some n -> (Z.of_nat n < len)%Z.
Proof.
  unfold Py.index.
  destruct (0 <=? i) eqn:E1, (i <? len) eqn:E2; simpl;
    try (intros [= <-]; lia);
    destruct (- len <=? i) eqn:E3, (i <? 0) eqn:E4; simpl;
    try discriminate; intros [= <-]; lia.
Qed.

Lemma getitem_in_range l i :
  0 <= i < Z.of_nat (length l) ->
  exists x, l !! Z.to_nat i = Some x /\ Py.getitem l i = Return x.
Proof.
  intros H. unfold Py.getitem. rewrite index_in_range by exact H.
  destruct (lookup_lt_is_Some_2 l (Z.to_nat i)) as [x Hx]; [lia |].
  exists x. rewrite Hx. auto.
Qed.

Lemma setitem_in_range l i v :
  0 <= i < Z.of_nat (length l) ->
  Py.setitem l i v = Return (<[Z.to_nat i := v]> l).
Proof.
  intros H. unfold Py.setitem. rewrite index_in_range by exact H. reflexivity.
Qed.

Lemma setitem_length l i v l' :
  Py.setitem l i v = Return l' -> length l' = length l.
Proof.
  unfold Py.setitem. destruct (Py.index _ i); [| discriminate].
  intros [= <-]. apply length_insert.
Qed.

Lemma getitem_Return_elem l i x :
  Py.getitem l i = Return x -> In x l.
Proof.
  unfold Py.getitem. destruct (Py.index _ i) as [n |]; [| discriminate].
  destruct (l !! n) eqn:E; [| discriminate].
  intros [= <-]. apply list_elem_of_In. eapply list_elem_of_lookup_2. exact E.
Qed.

End PyLemmas.

(** ** Lemmas on boards *)

Lemma wf_board_row (b : Board) (row : list (option Piece)) :
  wf_board b -> In row b -> length row = 8%nat.
Proof.
  intros [_ Hrows] Hin.
  rewrite List.Forall_forall in Hrows. apply Hrows, Hin.
Qed.

Lemma board_get_wf (b : Board) (idx : Index) :
  wf_board b -> in_bounds idx -> board_get b idx = Return (cell_at b idx).
Proof.
  intros Hwf [Hr Hc]. unfold board_get, cell_at.
  destruct (getitem_in_range b (fst idx)) as (row & Hrow & ->).
  { destruct Hwf as [-> _]. lia. }
  rewrite Hrow. simpl.
  assert (Hlen : length row = 8%nat).
  { eapply wf_board_row; [exact Hwf |].
    apply list_elem_of_In. eapply list_elem_of_lookup_2. exact Hrow. }
  destruct (getitem_in_range row (snd idx)) as (cell & Hcell & ->).
  { rewrite Hlen. lia. }
  rewrite Hcell. reflexivity.
Qed.

Lemma board_set_preserves_wf (b b' : Board) (idx : Index) (v : option Piece) :
  wf_board b -> board_set b idx v = Return b' -> wf_board b'.
Proof.
  intros Hwf. unfold board_set.
  destruct (Py.getitem b (fst idx)) as [row | |] eqn:Hrow; try discriminate.
  simpl.
  destruct (Py.setitem row (snd idx) v) as [row' | |] eqn:Hrow'; try discriminate.
  simpl. unfold Py.setitem.
  destruct (Py.index _ (fst idx)) as [n |]; [| discriminate].
  intros [= <-]. destruct Hwf as [Hlen Hrows]. split.
  - rewrite length_insert. exact Hlen.
  - apply Forall_insert; [exact Hrows |].
    rewrite (setitem_length _ _ _ _ Hrow').
    eapply wf_board_row; [split; eassumption |].
    eapply getitem_Return_elem. exact Hrow.
Qed.

Lemma board_set_wf (b : Board) (idx : Index) (v : option Piece) :
  wf_board b -> in_bounds idx ->
  exists b', board_set b idx v = Return b' /\ wf_board b' /\
    forall idx', in_bounds idx' ->
      cell_at b' idx' = if index_eqb idx' idx then v else cell_at b idx'.
Proof.
  intros Hwf [Hr Hc].
  destruct (getitem_in_range b (fst idx)) as (row & Hrow & Hget).
  { destruct Hwf as [-> _]. lia. }
  assert (Hlen : length row = 8%nat).
  { eapply wf_board_row; [exact Hwf |].
    apply list_elem_of_In. eapply list_elem_of_lookup_2. exact Hrow. }
  assert (Hset : board_set b idx v =
                 Return (<[Z.to_nat (fst idx) := <[Z.to_nat (snd idx) := v]> row]> b)).
  { unfold board_set. rewrite Hget. simpl.
    rewrite setitem_in_range by (rewrite Hlen; lia). simpl.
    apply setitem_in_range. destruct Hwf as [-> _]. lia. }
  eexists. split; [exact Hset |]. split.
  { eapply board_set_preserves_wf; eassumption. }
  intros idx' [Hr' Hc']. unfold cell_at, index_eqb.
  destruct (fst idx' =? fst idx) eqn:Er.
  - apply Z.eqb_eq in Er. rewrite Er.
    rewrite list_lookup_insert_eq by (destruct Hwf as [-> _]; lia).
    rewrite Hrow. simpl.
    destruct (snd idx' =? snd idx) eqn:Ec.
    + apply Z.eqb_eq in Ec. rewrite Ec.
      rewrite list_lookup_insert_eq by (rewrite Hlen; lia). reflexivity.
    + apply Z.eqb_neq in Ec.
      rewrite list_lookup_insert_ne by lia. reflexivity.
  - apply Z.eqb_neq in Er. simpl.
    rewrite list_lookup_insert_ne by lia. reflexivity.
Qed.

(** ** Lemmas on coordinate conversion *)

Lemma algebraic_to_index_in_bounds (square : string) (idx : Index) :
  algebraic_to_index square = Return idx -> in_bounds idx.
Proof.
  unfold algebraic_to_index.
  destruct square as [| c0 [| c1 [| ? ?]]]; try discriminate.
  change (Py.ord "a") with 97. change (Py.ord "h") with 104.
  change (Py.ord "1") with 49. change (Py.ord "8") with 56.
  unfold Py.int_digit. change (Py.ord "0") with 48.
  destruct (Py.ord (Py.lower_char c0) <? 97) eqn:E1; [discriminate |].
  destruct (Py.ord (Py.lower_char c0) >? 104) eqn:E2; [discriminate |].
  destruct (Py.ord c1 <? 49) eqn:E3; [discriminate |].
  destruct (Py.ord c1 >? 56) eqn:E4; [discriminate |].
  simpl. intros [= <-]. unfold in_bounds. simpl. lia.
Qed.

Lemma in_bounds_cases (idx : Index) :
  in_bounds idx ->
  In (fst idx) [0; 1; 2; 3; 4; 5; 6; 7] /\ In (snd idx) [0; 1; 2; 3; 4; 5; 6; 7].
Proof.
  intros [Hr Hc]. simpl. split; lia.
Qed.

Lemma index_round_trip (idx : Index) :
  in_bounds idx ->
  (let* s := index_to_algebraic idx in algebraic_to_index s)%outcome = Return idx.
Proof.
  intros H. destruct idx as [row col].
  destruct (in_bounds_cases _ H) as [Hr Hc]. simpl in Hr, Hc.
  repeat (destruct Hr as [<- | Hr]; [| try contradiction]);
    repeat (destruct Hc as [<- | Hc]; [| try contradiction]);
    vm_compute; reflexivity.
Qed.

Lemma valid_square_parses (s : string) :
  valid_square s = true -> exists idx, algebraic_to_index s = Return idx.
Proof.
  unfold valid_square, algebraic_to_index.
  destruct s as [| f [| r [| ? ?]]]; try discriminate.
  change (Py.ord "a") with 97. change (Py.ord "h") with 104.
  change (Py.ord "A") with 65. change (Py.ord "H") with 72.
  change (Py.ord "1") with 49. change (Py.ord "8") with 56.
  intros H.
  apply andb_prop in H as [H Hr8]. apply andb_prop in H as [Hf Hr1].
  apply Z.leb_le in Hr8, Hr1.
  assert (Hlow : 97 <= Py.ord (Py.lower_char f) <= 104).
  { unfold Py.lower_char.
    assert (Hb : 0 <= Py.ord f < 256).
    { unfold Py.ord. pose proof (N_ascii_bounded f). lia. }
    apply orb_prop in Hf as [Hf | Hf]; apply andb_prop in Hf as [H1 H2];
      apply Z.leb_le in H1, H2.
    - ztests; try lia.
    - ztests; try lia.
      unfold Py.chr, Py.ord. rewrite N_ascii_embedding; unfold Py.ord in *; lia. }
  ztests; try lia.
  simpl. eauto.
Qed.

(** ** Coordinate conversion: round trip *)

(** C7: for every valid algebraic square string [s] (two characters, file
    a-h in either case, rank 1-8), [algebraic_to_index s] returns an index
    and converting that index to a square and back gives the same result:
    algebraic_to_index (index_to_algebraic (algebraic_to_index s)) equals
    algebraic_to_index s. *)
Theorem algebraic_round_trip (s : string) :
  valid_square s = true ->
  exists idx,
    algebraic_to_index s = Return idx /\
    (let* i := algebraic_to_index s in
     let* sq := index_to_algebraic i in
     algebraic_to_index sq)%outcome = algebraic_to_index s.
Proof.
  intros Hvalid.
  destruct (valid_square_parses s Hvalid) as [idx Hidx].
  exists idx. split; [exact Hidx |].
  rewrite Hidx. simpl.
  apply index_round_trip.
  eapply algebraic_to_index_in_bounds. exact Hidx.
Qed.

Lemma algebraic_round_trip_witness :
  valid_square "E2" = true /\
  exists idx,
    algebraic_to_index "E2" = Return idx /\
    (let* i := algebraic_to_index "E2" in
     let* sq := index_to_algebraic i in
     algebraic_to_index sq)%outcome = algebraic_to_index "E2".
Proof.
  split; [reflexivity | apply (algebraic_round_trip "E2"); reflexivity].
Defined.

(** ** Restart *)

Lemma restart_result (self : ChessGame) :
  restart self = (mkChessGame standard_board white "in_progress" [], Return tt).
Proof. reflexivity. Qed.

(** C8: from every state, in particular every reachable one, [restart]
    succeeds; afterwards the board is the standard initial layout with
    exactly 32 pieces, it is white's turn, the status is in_progress and
    the history is empty; a second [restart] changes nothing. *)
Theorem restart_standard_position (self : ChessGame) :
  exists self',
    restart self = (self', Return tt) /\
    board self' = standard_board /\
    count_pieces (board self') = 32%nat /\
    current_turn self' = white /\
    game_status self' = "in_progress"%string /\
    history self' = [] /\
    restart self' = (self', Return tt).
Proof.
  exists (mkChessGame standard_board white "in_progress" []).
  repeat split; apply restart_result.
Qed.

(** ** The shape of [apply_move] *)

Lemma getitem_error {A : Type} (l : list A) (i : Z) :
  (exists x, Py.getitem l i = Return x) \/ Py.getitem l i = Raise IndexError.
Proof.
  unfold Py.getitem. destruct (Py.index _ i); [| auto].
  destruct (l !! n); eauto.
Qed.

Lemma setitem_error {A : Type} (l : list A) (i : Z) (v : A) :
  (exists l', Py.setitem l i v = Return l') \/ Py.setitem l i v = Raise IndexError.
Proof.
  unfold Py.setitem. destruct (Py.index _ i); eauto.
Qed.

Lemma board_get_error (b : Board) (idx : Index) :
  (exists cell, board_get b idx = Return cell) \/ board_get b idx = Raise IndexError.
Proof.
  unfold board_get.
  destruct (getitem_error b (fst idx)) as [[row ->] | ->]; [| auto].
  simpl. apply getitem_error.
Qed.

Lemma board_set_error (b : Board) (idx : Index) (v : option Piece) :
  (exists b', board_set b idx v = Return b') \/ board_set b idx v = Raise IndexError.
Proof.
  unfold board_set.
  destruct (getitem_error b (fst idx)) as [[row ->] | ->]; [| auto].
  simpl.
  destruct (setitem_error row (snd idx) v) as [[row' ->] | ->]; [| auto].
  simpl. apply setitem_error.
Qed.

Lemma algebraic_to_index_error (square : string) :
  (exists idx, algebraic_to_index square = Return idx) \/
  (exists why, algebraic_to_index square = illegal why /\
               In why [SquareForm; FileRange; RankRange]).
Proof.
  unfold algebraic_to_index.
  destruct square as [| c0 [| c1 [| ? ?]]];
    try (right; exists SquareForm; simpl; auto; fail).
  destruct (_ || _).
  { right; exists FileRange; simpl; auto. }
  destruct (_ || _).
  { right; exists RankRange; simpl; auto. }
  eauto.
Qed.

Lemma apply_move_checked (self : ChessGame) (from_sq to_sq : string)
    (promotion : option string) (fr to : Index) (piece : Piece)
    (target : option Piece) :
  game_status self = "in_progress"%string ->
  from_sq <> to_sq ->
  algebraic_to_index from_sq = Return fr ->
  algebraic_to_index to_sq = Return to ->
  board_get (board self) fr = Return (Some piece) ->
  piece_color piece = current_turn self ->
  board_get (board self) to = Return target ->
  own_piece target piece = false ->
  apply_move from_sq to_sq promotion self =
  validate_then_execute self piece fr to target promotion from_sq to_sq.
Proof.
  intros Hst Hne Hfr Hto Hsrc Hturn Htgt Hown.
  apply String.eqb_neq in Hne.
  assert (Hcol : color_eqb (piece_color piece) (current_turn self) = true).
  { rewrite Hturn. destruct (current_turn self); reflexivity. }
  open_apply_move.
  assert (Hst' : String.eqb (game_status self) "in_progress" = true).
  { rewrite Hst. reflexivity. }
  step Hst'. step Hne. step Hfr. step Hto. step Hsrc. step Hcol. step Htgt. step Hown.
  unfold validate_then_execute, execute_move, bind, get_self, read, raise.
  destruct (_validate_piece_move _ _ _ _ _ _); reflexivity.
Qed.

Lemma apply_move_inv (self : ChessGame) (from_sq to_sq : string) :
  (exists e, precheck_error self from_sq e /\
             forall promotion,
               apply_move from_sq to_sq promotion self = (self, Raise e))
  \/
  (exists fr to piece target,
      game_status self = "in_progress"%string /\
      from_sq <> to_sq /\
      algebraic_to_index from_sq = Return fr /\
      algebraic_to_index to_sq = Return to /\
      board_get (board self) fr = Return (Some piece) /\
      piece_color piece = current_turn self /\
      board_get (board self) to = Return target /\
      own_piece target piece = false /\
      forall promotion,
        apply_move from_sq to_sq promotion self =
        validate_then_execute self piece fr to target promotion from_sq to_sq).
Proof.
  assert (Hpre : forall why,
             In why [GameNotInProgress; SameSquare; SquareForm; FileRange; RankRange;
                     EmptySource from_sq; WrongTurn (current_turn self);
                     FriendlyCapture] ->
             precheck_error self from_sq (IllegalMoveError why)).
  { intros why Hin. right. eauto. }
  destruct (String.eqb (game_status self) "in_progress") eqn:Hst.
  2:{ left. exists (IllegalMoveError GameNotInProgress). split; [apply (Hpre GameNotInProgress); simpl; auto |].
      intros promotion.
      open_apply_move. step Hst. reflexivity. }
  destruct (String.eqb from_sq to_sq) eqn:Hne.
  { left. exists (IllegalMoveError SameSquare). split; [apply (Hpre SameSquare); simpl; auto |].
    intros promotion.
    open_apply_move. step Hst. step Hne. reflexivity. }
  destruct (algebraic_to_index_error from_sq) as [[fr Hfr] | (why & Hfr & Hin)].
  2:{ left. exists (IllegalMoveError why). split.
      - apply Hpre. simpl in Hin |- *. tauto.
      - intros promotion.
        open_apply_move. step Hst. step Hne. step Hfr. reflexivity. }
  destruct (algebraic_to_index_error to_sq) as [[to Hto] | (why & Hto & Hin)].
  2:{ left. exists (IllegalMoveError why). split.
      - apply Hpre. simpl in Hin |- *. tauto.
      - intros promotion.
        open_apply_move. step Hst. step Hne. step Hfr. step Hto. reflexivity. }
  destruct (board_get_error (board self) fr) as [[source Hsrc] | Hsrc].
  2:{ left. exists IndexError. split; [left; reflexivity |]. intros promotion.
      open_apply_move. step Hst. step Hne. step Hfr. step Hto. step Hsrc.
      reflexivity. }
  destruct source as [piece |].
  2:{ left. exists (IllegalMoveError (EmptySource from_sq)).
      split; [apply (Hpre (EmptySource from_sq)); simpl; auto 10 |]. intros promotion.
      open_apply_move. step Hst. step Hne. step Hfr. step Hto. step Hsrc.
      reflexivity. }
  destruct (color_eqb (piece_color piece) (current_turn self)) eqn:Hturn.
  2:{ left. exists (IllegalMoveError (WrongTurn (current_turn self))). split;
        [apply (Hpre (WrongTurn (current_turn self))); simpl; auto 10 |].
      intros promotion.
      open_apply_move. step Hst. step Hne. step Hfr. step Hto. step Hsrc.
      step Hturn. reflexivity. }
  destruct (board_get_error (board self) to) as [[target Htgt] | Htgt].
  2:{ left. exists IndexError. split; [left; reflexivity |]. intros promotion.
      open_apply_move. step Hst. step Hne. step Hfr. step Hto. step Hsrc.
      step Hturn. step Htgt. reflexivity. }
  destruct (own_piece target piece) eqn:Hown.
  { left. exists (IllegalMoveError FriendlyCapture).
    split; [apply (Hpre FriendlyCapture); simpl; auto 10 |]. intros promotion.
    open_apply_move. step Hst. step Hne. step Hfr. step Hto. step Hsrc.
    step Hturn. step Htgt. step Hown. reflexivity. }
  right. exists fr, to, piece, target.
  apply String.eqb_eq in Hst. apply String.eqb_neq in Hne.
  assert (Hcol : piece_color piece = current_turn self).
  { destruct (piece_color piece), (current_turn self); simpl in Hturn;
      congruence. }
  repeat (split; [assumption |]).
  intros promotion. apply apply_move_checked; assumption.
Qed.

(** ** Promotion codes and the piece that moves *)

Lemma pawn_promotion_off_last_rank (self : ChessGame) (piece : Piece) (fr to : Index)
    (dr dc : Z) (capture : bool) (code : string) :
  fst to <> 0 -> fst to <> 7 ->
  _validate_pawn_move self piece fr to dr dc capture (Some code) =
  illegal PromotionNotAllowed.
Proof.
  intros H0 H7. unfold _validate_pawn_move.
  apply Z.eqb_neq in H0, H7. rewrite H0, H7. reflexivity.
Qed.

(** C3, as the code has it: a pawn move with an explicit promotion code
    whose destination is not on row 0 or 7 is rejected with
    PromotionNotAllowed once the checks that come before the piece rule have
    passed: the game is in progress, the two strings differ and parse, the
    pawn belongs to the side to move and the destination does not hold a
    piece of that side; the pawn rule
    reports it whatever the capture flag, the displacement and the board
    are, so no pawn-specific message (illegal capture, illegal move,
    blocked) can come out for such an input. *)
Theorem promotion_not_allowed_first (self : ChessGame) (from_sq to_sq code : string)
    (fr to : Index) (piece : Piece) (target : option Piece) :
  game_status self = "in_progress"%string ->
  from_sq <> to_sq ->
  algebraic_to_index from_sq = Return fr ->
  algebraic_to_index to_sq = Return to ->
  board_get (board self) fr = Return (Some piece) ->
  piece_type piece = pawn ->
  piece_color piece = current_turn self ->
  board_get (board self) to = Return target ->
  own_piece target piece = false ->
  fst to <> 0 -> fst to <> 7 ->
  apply_move from_sq to_sq (Some code) self = (self, illegal PromotionNotAllowed) /\
  forall self' dr dc capture,
    _validate_pawn_move self' piece fr to dr dc capture (Some code) =
    illegal PromotionNotAllowed.
Proof.
  intros Hst Hne Hfr Hto Hsrc Hpawn Hturn Htgt Hown H0 H7. split.
  - rewrite (apply_move_checked self from_sq to_sq (Some code) fr to piece target)
      by assumption.
    unfold validate_then_execute, _validate_piece_move. rewrite Hpawn.
    rewrite pawn_promotion_off_last_rank by assumption. reflexivity.
  - intros. apply pawn_promotion_off_last_rank; assumption.
Qed.

Lemma promotion_not_allowed_first_witness :
  apply_move "e2" "e5" (Some "q"%string) new_game =
    (new_game, illegal PromotionNotAllowed) /\
  forall self' dr dc capture,
    _validate_pawn_move self' (mkPiece pawn white) (6, 4) (3, 4) dr dc capture
                        (Some "q"%string) =
    illegal PromotionNotAllowed.
Proof.
  apply (promotion_not_allowed_first new_game "e2" "e5" "q" (6, 4) (3, 4)
           (mkPiece pawn white) None);
    solve [reflexivity | discriminate].
Defined.

(** C3, counterexample: a promotion code does not come first when an
    earlier check fails.  In the initial position the black pawn's move
    e7-e5 with code "q" is rejected with the wrong-turn error; after g1-f3
    and a7-a6 the white pawn's move f2-f3 with code "q", onto its own
    knight, is rejected with the own-piece error.  Both destinations are off
    rows 0 and 7. *)
Lemma promotion_code_after_earlier_checks :
  algebraic_to_index "e7" = Return (1, 4) /\
  algebraic_to_index "e5" = Return (3, 4) /\
  board_get (board new_game) (1, 4) = Return (Some (mkPiece pawn black)) /\
  fst (3, 4) <> 0 /\ fst (3, 4) <> 7 /\
  apply_move "e7" "e5" (Some "q"%string) new_game =
    (new_game, illegal (WrongTurn white)) /\
  snd (apply_move "e7" "e5" (Some "q"%string) new_game) <>
    illegal PromotionNotAllowed /\
  algebraic_to_index "f2" = Return (6, 5) /\
  algebraic_to_index "f3" = Return (5, 5) /\
  board_get (board knight_on_f3) (6, 5) = Return (Some (mkPiece pawn white)) /\
  fst (5, 5) <> 0 /\ fst (5, 5) <> 7 /\
  apply_move "f2" "f3" (Some "q"%string) knight_on_f3 =
    (knight_on_f3, illegal FriendlyCapture) /\
  snd (apply_move "f2" "f3" (Some "q"%string) knight_on_f3) <>
    illegal PromotionNotAllowed.
Proof.
  split; [vm_compute; reflexivity |].
  split; [vm_compute; reflexivity |].
  split; [vm_compute; reflexivity |].
  split; [discriminate |]. split; [discriminate |].
  split; [vm_compute; reflexivity |].
  split; [vm_compute; discriminate |].
  split; [vm_compute; reflexivity |].
  split; [vm_compute; reflexivity |].
  split; [vm_compute; reflexivity |].
  split; [discriminate |]. split; [discriminate |].
  split; [vm_compute; reflexivity |].
  vm_compute. discriminate.
Qed.

Lemma clear_path_loop_error (fuel : nat) (self : ChessGame) (step_r step_c : Z)
    (to : Index) (r c : Z) (e : exn) :
  snd (clear_path_loop fuel self step_r step_c to r c) = Raise e ->
  e = IndexError \/ e = IllegalMoveError PathBlocked.
Proof.
  revert r c. induction fuel as [| fuel IH]; intros r c; simpl.
  - discriminate.
  - destruct (negb (index_eqb (r, c) to)); [| discriminate].
    destruct (board_get_error (board self) (r, c)) as [[cell ->] | ->].
    + destruct (occupied cell).
      * simpl. intros [= <-]. auto.
      * specialize (IH (r + step_r) (c + step_c)).
        destruct (clear_path_loop fuel self step_r step_c to _ _). exact IH.
    + simpl. intros [= <-]. auto.
Qed.

Lemma validate_non_pawn (self : ChessGame) (piece : Piece) (fr to : Index)
    (capture : bool) (promotion : option string) :
  piece_type piece <> pawn ->
  _validate_piece_move self piece fr to capture promotion =
  _validate_piece_move self piece fr to capture None /\
  forall e, _validate_piece_move self piece fr to capture promotion = Raise e ->
            e <> IllegalMoveError PromotionNotAllowed /\
            e <> IllegalMoveError InvalidPromotion.
Proof.
  intros Hnp. split.
  - unfold _validate_piece_move. destruct (piece_type piece); congruence.
  - intros e. unfold _validate_piece_move, _require_clear_path, clear_path_run.
    destruct (piece_type piece); try congruence;
      repeat match goal with
        | |- context [if ?b then _ else _] => destruct b
        end;
      try (intros H; apply clear_path_loop_error in H as [-> | ->];
           split; discriminate);
      try (intros [= <-]; split; discriminate);
      discriminate.
Qed.

Lemma store_cell_outcome (idx : Index) (v : option Piece) (self : ChessGame) :
  (exists b, board_set (board self) idx v = Return b /\
             store_cell idx v self =
             (mkChessGame b (current_turn self) (game_status self) (history self),
              Return tt))
  \/ store_cell idx v self = (self, Raise IndexError).
Proof.
  unfold store_cell.
  destruct (board_set_error (board self) idx v) as [[b Hb] | Hb]; rewrite Hb.
  - left. eauto.
  - right. reflexivity.
Qed.

Lemma execute_move_non_pawn (piece : Piece) (fr to : Index) (capture : bool)
    (promotion : option string) (from_sq to_sq : string) (self : ChessGame) :
  piece_type piece <> pawn ->
  execute_move piece fr to capture promotion from_sq to_sq self =
  execute_move piece fr to capture None from_sq to_sq self /\
  ((exists self', execute_move piece fr to capture promotion from_sq to_sq self =
                  (self', Raise IndexError))
   \/ (exists self' record,
          execute_move piece fr to capture promotion from_sq to_sq self =
          (self', Return record) /\ move_promotion record = None)).
Proof.
  intros Hnp.
  assert (Hp : is_pawn piece = false).
  { unfold is_pawn. destruct (piece_type piece); congruence. }
  unfold execute_move, bind. rewrite Hp. cbn beta iota delta [andb].
  split; [reflexivity |].
  destruct (store_cell_outcome to (Some piece) self) as [(b & _ & ->) | ->];
    [| left; eauto].
  match goal with
  | |- context [store_cell fr None ?s] =>
      destruct (store_cell_outcome fr None s) as [(b' & _ & ->) | ->];
        [| left; eauto]
  end.
  right. eexists. eexists. split; reflexivity.
Qed.

(** C9: when the piece on the source square is not a pawn, the promotion
    code plays no part: the call behaves exactly as without a code, it never
    fails with PromotionNotAllowed or InvalidPromotion, and a record that is
    returned has no promotion. *)
Theorem non_pawn_ignores_promotion (self : ChessGame) (from_sq to_sq : string)
    (promotion : option string) (fr : Index) (piece : Piece) :
  algebraic_to_index from_sq = Return fr ->
  board_get (board self) fr = Return (Some piece) ->
  piece_type piece <> pawn ->
  apply_move from_sq to_sq promotion self = apply_move from_sq to_sq None self /\
  (forall self' e,
      apply_move from_sq to_sq promotion self = (self', Raise e) ->
      e <> IllegalMoveError PromotionNotAllowed /\
      e <> IllegalMoveError InvalidPromotion) /\
  (forall self' record,
      apply_move from_sq to_sq promotion self = (self', Return record) ->
      move_promotion record = None).
Proof.
  intros Hfr Hsrc Hnp.
  destruct (apply_move_inv self from_sq to_sq)
    as [(e & Hpre & Hall) | (fr' & to & piece' & target & _ & _ & Hfr' & _ & Hsrc' & _ & _ & _ & Hall)].
  - rewrite !Hall. split; [reflexivity |]. split.
    + intros self' e' [= _ <-].
      destruct Hpre as [-> | (why & -> & Hin)]; [split; discriminate |].
      simpl in Hin.
      repeat (destruct Hin as [<- | Hin]; [split; discriminate |]).
      contradiction.
    + discriminate.
  - rewrite Hfr in Hfr'. injection Hfr' as <-.
    rewrite Hsrc in Hsrc'. injection Hsrc' as <-.
    rewrite !Hall. unfold validate_then_execute.
    destruct (validate_non_pawn self piece fr to (occupied target) promotion Hnp)
      as [Heq Herr].
    destruct (execute_move_non_pawn piece fr to (occupied target) promotion
                from_sq to_sq self Hnp) as [Hex Hout].
    rewrite <- Heq, <- Hex. split; [reflexivity |].
    destruct (_validate_piece_move self piece fr to (occupied target) promotion)
      as [[] | e |] eqn:Hval.
    + destruct Hout as [(s1 & ->) | (s1 & rec & -> & Hrec)].
      * split; [intros ? ? [= _ <-]; split; discriminate | discriminate].
      * split; [discriminate | intros ? ? [= _ <-]; exact Hrec].
    + split; [| discriminate].
      intros ? ? [= _ <-]. apply Herr. reflexivity.
    + split; discriminate.
Qed.

Lemma non_pawn_ignores_promotion_witness :
  apply_move "b1" "c3" (Some "x"%string) new_game = apply_move "b1" "c3" None new_game /\
  (forall self' e,
      apply_move "b1" "c3" (Some "x"%string) new_game = (self', Raise e) ->
      e <> IllegalMoveError PromotionNotAllowed /\
      e <> IllegalMoveError InvalidPromotion) /\
  (forall self' record,
      apply_move "b1" "c3" (Some "x"%string) new_game = (self', Return record) ->
      move_promotion record = None).
Proof.
  apply (non_pawn_ignores_promotion new_game "b1" "c3" (Some "x"%string) (7, 1)
           (mkPiece knight white));
    solve [reflexivity | discriminate].
Defined.

(** ** The clear-path loop *)

Lemma sign_step_sgn (d : Z) : sign_step d = Z.sgn d.
Proof. unfold sign_step. ztests; lia. Qed.

Lemma scan_prefix (b : Board) (cells : list Index) :
  exists rest, cells = fst (scan b cells) ++ rest.
Proof.
  induction cells as [| idx cells [rest IH]]; simpl.
  - exists []. reflexivity.
  - destruct (occupied (cell_at b idx)).
    + exists cells. reflexivity.
    + destruct (scan b cells) as [seen res]. simpl in *.
      exists rest. congruence.
Qed.

Lemma scan_outcome (b : Board) (cells : list Index) :
  (Forall (empty_cell b) cells /\ scan b cells = (cells, Return tt)) \/
  (Exists (fun idx => ~ empty_cell b idx) cells /\
   snd (scan b cells) = illegal PathBlocked).
Proof.
  induction cells as [| idx cells IH]; simpl.
  - left. split; [constructor | reflexivity].
  - destruct (cell_at b idx) as [p |] eqn:Hcell; simpl.
    + right. split; [| reflexivity].
      apply List.Exists_cons_hd. unfold empty_cell. congruence.
    + destruct IH as [[Hall ->] | [Hex Hres]].
      * left. split; [| reflexivity]. constructor; [exact Hcell | exact Hall].
      * right. split; [apply List.Exists_cons_tl; exact Hex |].
        destruct (scan b cells). exact Hres.
Qed.

Lemma clear_path_loop_scan (self : ChessGame) (step_r step_c : Z) (n : nat) :
  wf_board (board self) ->
  (step_r <> 0 \/ step_c <> 0) ->
  forall (fuel : nat) (r c : Z),
    (n < fuel)%nat ->
    (forall k, (k < n)%nat ->
               in_bounds (r + Z.of_nat k * step_r, c + Z.of_nat k * step_c)) ->
    clear_path_loop fuel self step_r step_c
      (r + Z.of_nat n * step_r, c + Z.of_nat n * step_c) r c =
    scan (board self)
      (map (fun k => (r + Z.of_nat k * step_r, c + Z.of_nat k * step_c)) (seq 0 n)).
Proof.
  intros Hwf Hstep. induction n as [| n IH]; intros fuel r c Hfuel Hin.
  - destruct fuel as [| fuel]; [lia |].
    replace (r + Z.of_nat 0 * step_r) with r by lia.
    replace (c + Z.of_nat 0 * step_c) with c by lia.
    cbn [clear_path_loop seq map scan]. unfold index_eqb. cbn [fst snd].
    rewrite !Z.eqb_refl. reflexivity.
  - destruct fuel as [| fuel]; [lia |].
    cbn [clear_path_loop].
    assert (Hne : index_eqb (r, c)
              (r + Z.of_nat (S n) * step_r, c + Z.of_nat (S n) * step_c) = false).
    { unfold index_eqb. simpl fst. simpl snd.
      apply andb_false_iff.
      destruct Hstep as [Hs | Hs]; [left | right]; apply Z.eqb_neq; nia. }
    rewrite Hne. cbn [negb].
    assert (Hb : in_bounds (r, c)).
    { pose proof (Hin 0%nat ltac:(lia)) as H0.
      unfold in_bounds in *. cbn [fst snd] in *. lia. }
    rewrite (board_get_wf _ _ Hwf Hb).
    cbn [seq map scan]. rewrite <- seq_shift, List.map_map.
    replace (r + Z.of_nat 0 * step_r, c + Z.of_nat 0 * step_c) with (r, c)
      by (f_equal; lia).
    destruct (occupied (cell_at (board self) (r, c))); [reflexivity |].
    specialize (IH fuel (r + step_r) (c + step_c) ltac:(lia)).
    replace (r + step_r + Z.of_nat n * step_r, c + step_c + Z.of_nat n * step_c)
      with (r + Z.of_nat (S n) * step_r, c + Z.of_nat (S n) * step_c) in IH
      by (f_equal; lia).
    rewrite IH.
    + erewrite List.map_ext; [reflexivity |].
      intros k. simpl. f_equal; lia.
    + intros k Hk. pose proof (Hin (S k) ltac:(lia)) as HSk.
      replace (r + step_r + Z.of_nat k * step_r, c + step_c + Z.of_nat k * step_c)
        with (r + Z.of_nat (S k) * step_r, c + Z.of_nat (S k) * step_c)
        by (f_equal; lia).
      exact HSk.
Qed.

Lemma clear_path_run_scan (self : ChessGame) (fr to : Index) :
  wf_board (board self) ->
  in_bounds fr -> in_bounds to -> fr <> to -> aligned fr to ->
  clear_path_run self fr to = scan (board self) (between fr to).
Proof.
  intros Hwf Hfr Hto Hne Hal.
  destruct fr as [fr_r fr_c], to as [to_r to_c].
  unfold clear_path_run, between, distance, aligned, in_bounds in *.
  cbn [fst snd] in *. rewrite !sign_step_sgn.
  assert (Hdist : to_r <> fr_r \/ to_c <> fr_c).
  { destruct (Z.eq_dec to_r fr_r), (Z.eq_dec to_c fr_c); subst; auto. }
  set (n := Z.to_nat (Z.max (Z.abs (to_r - fr_r)) (Z.abs (to_c - fr_c)) - 1)).
  assert (Hn : Z.of_nat n =
               Z.max (Z.abs (to_r - fr_r)) (Z.abs (to_c - fr_c)) - 1) by lia.
  clearbody n.
  destruct (Z.sgn_spec (to_r - fr_r)) as [[Hr ->] | [[Hr ->] | [Hr ->]]];
    destruct (Z.sgn_spec (to_c - fr_c)) as [[Hc ->] | [[Hc ->] | [Hc ->]]];
    try lia;
    match goal with
    | |- clear_path_loop _ _ ?sr ?sc _ ?r ?c = _ =>
        replace (to_r, to_c) with (r + Z.of_nat n * sr, c + Z.of_nat n * sc)
          by (f_equal; lia);
        rewrite clear_path_loop_scan;
        [ rewrite <- seq_shift, List.map_map;
          erewrite List.map_ext; [reflexivity |];
          intros k; cbn beta; f_equal; lia
        | exact Hwf
        | lia
        | unfold path_fuel; lia
        | intros k Hk; unfold in_bounds; cbn [fst snd]; lia ]
    end.
Qed.

Lemma between_length (fr to : Index) :
  length (between fr to) = Z.to_nat (distance fr to - 1).
Proof.
  unfold between. rewrite length_map, length_seq. reflexivity.
Qed.

Lemma between_in_bounds (fr to : Index) :
  in_bounds fr -> in_bounds to -> aligned fr to ->
  Forall in_bounds (between fr to).
Proof.
  intros Hfr Hto Hal. unfold between. apply List.Forall_forall.
  intros idx Hin. apply List.in_map_iff in Hin as (k & <- & Hk).
  apply List.in_seq in Hk.
  destruct fr as [fr_r fr_c], to as [to_r to_c].
  unfold distance, aligned, in_bounds in *. cbn [fst snd] in *.
  destruct (Z.sgn_spec (to_r - fr_r)) as [[Hr ->] | [[Hr ->] | [Hr ->]]];
    destruct (Z.sgn_spec (to_c - fr_c)) as [[Hc ->] | [[Hc ->] | [Hc ->]]];
    lia.
Qed.

Lemma require_clear_path_outcome (self : ChessGame) (fr to : Index) :
  wf_board (board self) ->
  in_bounds fr -> in_bounds to -> fr <> to -> aligned fr to ->
  (Forall (empty_cell (board self)) (between fr to) /\
   _require_clear_path self fr to = Return tt /\
   cells_read self fr to = between fr to)
  \/
  (Exists (fun idx => ~ empty_cell (board self) idx) (between fr to) /\
   _require_clear_path self fr to = illegal PathBlocked).
Proof.
  intros Hwf Hfr Hto Hne Hal.
  unfold _require_clear_path, cells_read.
  rewrite clear_path_run_scan by assumption.
  destruct (scan_outcome (board self) (between fr to)) as [[Hall Hs] | [Hex Hs]].
  - left. rewrite Hs. auto.
  - right. auto.
Qed.

Lemma empty_or_occupied (b : Board) (cells : list Index) :
  Forall (empty_cell b) cells -> Exists (fun idx => ~ empty_cell b idx) cells -> False.
Proof.
  intros Hall Hex. apply List.Exists_exists in Hex as (idx & Hin & Hocc).
  rewrite List.Forall_forall in Hall. exact (Hocc (Hall idx Hin)).
Qed.

(** ** Executing a validated move *)

Lemma store_cell_wf (idx : Index) (v : option Piece) (self : ChessGame) :
  wf_board (board self) -> in_bounds idx ->
  exists b',
    store_cell idx v self =
    (mkChessGame b' (current_turn self) (game_status self) (history self), Return tt) /\
    wf_board b' /\
    forall idx', in_bounds idx' ->
      cell_at b' idx' = if index_eqb idx' idx then v else cell_at (board self) idx'.
Proof.
  intros Hwf Hin.
  destruct (board_set_wf (board self) idx v Hwf Hin) as (b' & Hset & Hwf' & Hcells).
  exists b'. unfold store_cell. rewrite Hset. auto.
Qed.

Lemma valid_code_type (code : string) :
  valid_code code = true ->
  exists t, dict_getitem promotion_types code = Return t /\
            In (code, t) promotion_types.
Proof.
  unfold valid_code. intros H. apply existsb_exists in H as (c & Hin & Heq).
  apply String.eqb_eq in Heq. subst c. simpl in Hin.
  destruct Hin as [<- | [<- | [<- | [<- | []]]]]; eexists; simpl; split;
    solve [reflexivity | auto 10].
Qed.

Lemma execute_move_spec (piece : Piece) (fr to : Index) (capture : bool)
    (promotion : option string) (from_sq to_sq : string) (self : ChessGame) :
  wf_board (board self) -> in_bounds fr -> in_bounds to -> fr <> to ->
  let code := resolved_code promotion in
  let promotes := is_pawn piece && last_rank to in
  if promotes && negb (valid_code code) then
    exists b',
      moved (board self) b' fr to piece /\
      execute_move piece fr to capture promotion from_sq to_sq self =
      (mkChessGame b' (current_turn self) (game_status self) (history self),
       illegal InvalidPromotion)
  else
    exists b' placed record,
      moved (board self) b' fr to placed /\
      (if promotes
       then exists t, In (code, t) promotion_types /\
                      placed = mkPiece t (piece_color piece)
       else placed = piece) /\
      record =
        mkMoveRecord (Z.of_nat (length (history self)) / 2 + 1) (piece_color piece)
                     from_sq to_sq capture
                     (if promotes then Some code else None) piece /\
      execute_move piece fr to capture promotion from_sq to_sq self =
      (mkChessGame b' (other_color (current_turn self)) (game_status self)
                   (history self ++ [record]),
       Return record).
Proof.
  intros Hwf Hfr Hto Hne code promotes.
  destruct (store_cell_wf to (Some piece) self Hwf Hto) as (b1 & Hs1 & Hwf1 & Hc1).
  set (s1 := mkChessGame b1 (current_turn self) (game_status self) (history self)) in *.
  destruct (store_cell_wf fr None s1 Hwf1 Hfr) as (b2 & Hs2 & Hwf2 & Hc2).
  cbn [board current_turn game_status history s1] in Hs2, Hc2.
  set (s2 := mkChessGame b2 (current_turn self) (game_status self) (history self)) in *.
  assert (Hmoved : forall idx, in_bounds idx ->
            cell_at b2 idx =
            if index_eqb idx to then Some piece
            else if index_eqb idx fr then None else cell_at (board self) idx).
  { intros idx Hidx. rewrite Hc2, Hc1 by assumption.
    destruct (index_eqb idx fr) eqn:Efr; [| reflexivity].
    destruct (index_eqb idx to) eqn:Eto; [| reflexivity].
    exfalso. apply Hne. unfold index_eqb in Efr, Eto.
    apply andb_prop in Efr as [E1 E2]. apply andb_prop in Eto as [E3 E4].
    apply Z.eqb_eq in E1, E2, E3, E4.
    destruct fr, to, idx. simpl in *. congruence. }
  unfold execute_move, bind. rewrite Hs1, Hs2.
  fold (last_rank to). fold promotes.
  fold (resolved_code promotion). fold code. fold (valid_code code).
  destruct promotes eqn:Hp; cbn [andb].
  - destruct (valid_code code) eqn:Hv; cbn [negb].
    + destruct (valid_code_type code Hv) as (t & Ht & Hin).
      destruct (store_cell_wf to (Some (mkPiece t (piece_color piece))) s2 Hwf2 Hto)
        as (b3 & Hs3 & Hwf3 & Hc3).
      exists b3, (mkPiece t (piece_color piece)). eexists.
      split; [| split; [eauto | split; [reflexivity |]]].
      * split; [exact Hwf3 |]. intros idx Hidx.
        rewrite Hc3 by assumption. cbn [board s2].
        destruct (index_eqb idx to) eqn:Eto; [reflexivity |].
        rewrite Hmoved by assumption. rewrite Eto. reflexivity.
      * unfold read, ret, get_self, assign_history, assign_current_turn, bind.
        rewrite Ht, Hs3. reflexivity.
    + exists b2. split; [split; assumption |]. reflexivity.
  - exists b2, piece. eexists.
    split; [split; assumption | split; [reflexivity | split; [reflexivity |]]].
    reflexivity.
Qed.

Lemma checked_distinct (b : Board) (fr to : Index) (piece : Piece)
    (target : option Piece) :
  board_get b fr = Return (Some piece) ->
  board_get b to = Return target ->
  own_piece target piece = false ->
  fr <> to.
Proof.
  intros Hsrc Htgt Hown ->. rewrite Hsrc in Htgt. injection Htgt as <-.
  simpl in Hown. destruct (piece_color piece); discriminate.
Qed.

(** ** Sliding pieces *)

Lemma slider_validation (self : ChessGame) (piece : Piece) (fr to : Index)
    (capture : bool) (promotion : option string) :
  slider_pattern (piece_type piece) (fst to - fst fr) (snd to - snd fr) ->
  _validate_piece_move self piece fr to capture promotion =
  _require_clear_path self fr to /\
  aligned fr to /\ fr <> to /\ piece_type piece <> pawn.
Proof.
  unfold _validate_piece_move, slider_pattern, bishop_pattern, rook_pattern, aligned.
  intros Hpat. destruct (piece_type piece); try contradiction;
    (split; [ztests; try reflexivity; lia |]);
    (split; [lia |]);
    (split; [intros ->; lia | discriminate]).
Qed.

Lemma no_path_check (self1 self2 : ChessGame) (piece : Piece) (fr to : Index)
    (capture : bool) (promotion : option string) :
  piece_type piece = knight \/ piece_type piece = king ->
  _validate_piece_move self1 piece fr to capture promotion =
  _validate_piece_move self2 piece fr to capture promotion /\
  _validate_piece_move self1 piece fr to capture promotion <> illegal PathBlocked.
Proof.
  unfold _validate_piece_move.
  intros [-> | ->]; (split; [reflexivity |]);
    match goal with
    | |- context [if ?b then _ else _] => destruct b
    end; discriminate.
Qed.

(** C5, as the code has it: for a bishop, rook or queen move that has
    passed the checks that come before the piece rule (game in progress, two
    different strings that parse, a piece of the side to move, a destination
    that does not hold a piece of that side) and whose (dr, dc) matches the
    piece's pattern, [apply_move] succeeds exactly when every cell strictly
    between the two squares is empty, and fails with the blocked-path reason,
    leaving the state as it was, when one of them is occupied.  For a knight
    or a king the verdict of the piece rule is the same on every board, and
    is never the blocked-path reason. *)
Theorem slider_needs_clear_path (self : ChessGame) (from_sq to_sq : string)
    (promotion : option string) (fr to : Index) (piece : Piece)
    (target : option Piece) :
  wf_board (board self) ->
  game_status self = "in_progress"%string ->
  from_sq <> to_sq ->
  algebraic_to_index from_sq = Return fr ->
  algebraic_to_index to_sq = Return to ->
  board_get (board self) fr = Return (Some piece) ->
  piece_color piece = current_turn self ->
  board_get (board self) to = Return target ->
  own_piece target piece = false ->
  slider_pattern (piece_type piece) (fst to - fst fr) (snd to - snd fr) ->
  ((exists self' record,
       apply_move from_sq to_sq promotion self = (self', Return record))
   <-> Forall (empty_cell (board self)) (between fr to)) /\
  (Exists (fun idx => ~ empty_cell (board self) idx) (between fr to) ->
   apply_move from_sq to_sq promotion self = (self, illegal PathBlocked)) /\
  (forall self1 self2 piece' fr' to' capture,
      piece_type piece' = knight \/ piece_type piece' = king ->
      _validate_piece_move self1 piece' fr' to' capture promotion =
      _validate_piece_move self2 piece' fr' to' capture promotion /\
      _validate_piece_move self1 piece' fr' to' capture promotion <>
      illegal PathBlocked).
Proof.
  intros Hwf Hst Hne Hfr Hto Hsrc Hturn Htgt Hown Hpat.
  pose proof (algebraic_to_index_in_bounds _ _ Hfr) as Hbfr.
  pose proof (algebraic_to_index_in_bounds _ _ Hto) as Hbto.
  destruct (slider_validation self piece fr to (occupied target) promotion Hpat)
    as (Hval & Hal & Hdist & Hnp).
  rewrite (apply_move_checked self from_sq to_sq promotion fr to piece target)
    by assumption.
  unfold validate_then_execute. rewrite Hval.
  assert (Hblocked :
            Exists (fun idx => ~ empty_cell (board self) idx) (between fr to) ->
            _require_clear_path self fr to = illegal PathBlocked).
  { intros Hex.
    destruct (require_clear_path_outcome self fr to Hwf Hbfr Hbto Hdist Hal)
      as [(Hall & _ & _) | (_ & Hres)]; [| exact Hres].
    destruct (empty_or_occupied _ _ Hall Hex). }
  split; [| split].
  - split.
    + intros (self' & record & Hrun).
      destruct (require_clear_path_outcome self fr to Hwf Hbfr Hbto Hdist Hal)
        as [(Hall & _ & _) | (_ & Hres)]; [exact Hall |].
      rewrite Hres in Hrun. discriminate.
    + intros Hall.
      destruct (require_clear_path_outcome self fr to Hwf Hbfr Hbto Hdist Hal)
        as [(_ & Hres & _) | (Hex & _)];
        [| destruct (empty_or_occupied _ _ Hall Hex)].
      rewrite Hres.
      pose proof (execute_move_spec piece fr to (occupied target) promotion
                    from_sq to_sq self Hwf Hbfr Hbto Hdist) as Hexec.
      assert (Hp : is_pawn piece = false).
      { unfold is_pawn. destruct (piece_type piece); congruence. }
      cbv zeta in Hexec. rewrite Hp in Hexec. cbn [andb] in Hexec.
      destruct Hexec as (b' & placed & record & _ & _ & _ & ->). eauto.
  - intros Hex. rewrite (Hblocked Hex). reflexivity.
  - intros. apply no_path_check. assumption.
Qed.

Lemma scan_shape (b : Board) (cells : list Index) :
  (snd (scan b cells) = Return tt /\ fst (scan b cells) = cells /\
   Forall (empty_cell b) cells)
  \/
  (snd (scan b cells) = illegal PathBlocked /\
   exists pre idx rest,
     cells = pre ++ idx :: rest /\ fst (scan b cells) = pre ++ [idx] /\
     Forall (empty_cell b) pre /\ ~ empty_cell b idx).
Proof.
  induction cells as [| idx cells IH]; simpl.
  - left. repeat split. constructor.
  - destruct (cell_at b idx) as [p |] eqn:Hcell; simpl.
    + right. split; [reflexivity |]. exists [], idx, cells.
      repeat split; [constructor | unfold empty_cell; congruence].
    + destruct (scan b cells) as [seen res]. simpl in *.
      destruct IH as [(-> & -> & Hall) | (-> & pre & i & rest & -> & -> & Hall & Hocc)].
      * left. repeat split. constructor; assumption.
      * right. split; [reflexivity |]. exists (idx :: pre), i, rest.
        repeat split; [constructor; assumption | exact Hocc].
Qed.

(** C10, as the code has it: for distinct in-bounds squares on one row,
    column or diagonal of a well-formed board the clear-path check ends, by
    returning or by the blocked-path error; there are max(|dr|,|dc|) - 1
    intermediate cells; the check reads them in order from the source and
    stops at the first occupied one, so it reads at most max(|dr|,|dc|) - 1
    cells, exactly that many when it returns, and fewer when an earlier cell
    is occupied; every cell it reads lies within the 8x8 board. *)
Theorem clear_path_reads (self : ChessGame) (fr to : Index) :
  wf_board (board self) ->
  in_bounds fr -> in_bounds to -> fr <> to -> aligned fr to ->
  length (between fr to) = Z.to_nat (distance fr to - 1) /\
  Forall in_bounds (cells_read self fr to) /\
  (length (cells_read self fr to) <= Z.to_nat (distance fr to - 1))%nat /\
  ((_require_clear_path self fr to = Return tt /\
    cells_read self fr to = between fr to /\
    length (cells_read self fr to) = Z.to_nat (distance fr to - 1))
   \/
   (_require_clear_path self fr to = illegal PathBlocked /\
    exists pre idx rest,
      between fr to = pre ++ idx :: rest /\
      cells_read self fr to = pre ++ [idx] /\
      Forall (empty_cell (board self)) pre /\
      ~ empty_cell (board self) idx)).
Proof.
  intros Hwf Hfr Hto Hne Hal.
  pose proof (between_length fr to) as Hlen.
  pose proof (between_in_bounds fr to Hfr Hto Hal) as Hbounds.
  unfold _require_clear_path, cells_read.
  rewrite clear_path_run_scan by assumption.
  split; [exact Hlen |].
  destruct (scan_shape (board self) (between fr to))
    as [(Hres & Hseen & Hall) | (Hres & pre & idx & rest & Hcells & Hseen & Hall & Hocc)].
  - rewrite Hseen, Hres. repeat split; try assumption; try lia.
    left. auto.
  - rewrite Hseen, Hres. rewrite Hcells in Hlen, Hbounds.
    rewrite length_app in Hlen |- *. simpl in Hlen |- *.
    apply List.Forall_app in Hbounds as [Hpre Hrest].
    repeat split.
    + apply List.Forall_app. split; [exact Hpre |].
      constructor; [| constructor]. inversion Hrest; assumption.
    + lia.
    + right. split; [reflexivity |]. exists pre, idx, rest. auto.
Qed.

Lemma new_game_wf : wf_board (board new_game).
Proof. vm_compute. split; [reflexivity | repeat constructor]. Qed.

Lemma clear_path_reads_witness :
  length (between (7, 2) (5, 4)) = Z.to_nat (distance (7, 2) (5, 4) - 1) /\
  Forall in_bounds (cells_read new_game (7, 2) (5, 4)) /\
  (length (cells_read new_game (7, 2)%Z (5, 4)%Z) <=
   Z.to_nat (distance (7, 2)%Z (5, 4)%Z - 1))%nat /\
  ((_require_clear_path new_game (7, 2) (5, 4) = Return tt /\
    cells_read new_game (7, 2) (5, 4) = between (7, 2) (5, 4) /\
    length (cells_read new_game (7, 2) (5, 4)) =
    Z.to_nat (distance (7, 2) (5, 4) - 1))
   \/
   (_require_clear_path new_game (7, 2) (5, 4) = illegal PathBlocked /\
    exists pre idx rest,
      between (7, 2) (5, 4) = pre ++ idx :: rest /\
      cells_read new_game (7, 2) (5, 4) = pre ++ [idx] /\
      Forall (empty_cell (board new_game)) pre /\
      ~ empty_cell (board new_game) idx)).
Proof.
  apply (clear_path_reads new_game (7, 2) (5, 4)).
  - vm_compute. split; [reflexivity | repeat constructor].
  - unfold in_bounds; simpl; lia.
  - unfold in_bounds; simpl; lia.
  - discriminate.
  - unfold aligned; simpl; lia.
Defined.

(** C10, counterexample to the count: in the initial position the rook's
    line from a1 to a8 has 6 intermediate cells, and the check stops after
    reading the first one, a2, which holds a pawn. *)
Lemma clear_path_stops_early :
  in_bounds (7, 0) /\ in_bounds (0, 0) /\ (7, 0) <> (0, 0) /\
  aligned (7, 0) (0, 0) /\
  Z.max (Z.abs (0 - 7)) (Z.abs (0 - 0)) - 1 = 6 /\
  apply_move "a1" "a8" None new_game = (new_game, illegal PathBlocked) /\
  _require_clear_path new_game (7, 0) (0, 0) = illegal PathBlocked /\
  cells_read new_game (7, 0) (0, 0) = [(6, 0)] /\
  Z.of_nat (length (cells_read new_game (7, 0) (0, 0))) <>
  Z.max (Z.abs (0 - 7)) (Z.abs (0 - 0)) - 1.
Proof.
  unfold in_bounds, aligned. cbn [fst snd].
  split; [lia |]. split; [lia |]. split; [discriminate |]. split; [lia |].
  split; [reflexivity |].
  split; [vm_compute; reflexivity |].
  split; [vm_compute; reflexivity |].
  split; [vm_compute; reflexivity |].
  vm_compute. discriminate.
Qed.

Lemma slider_needs_clear_path_witness :
  ((exists self' record,
       apply_move "f1" "c4" None open_diagonal = (self', Return record))
   <-> Forall (empty_cell (board open_diagonal)) (between (7, 5) (4, 2))) /\
  (Exists (fun idx => ~ empty_cell (board open_diagonal) idx) (between (7, 5) (4, 2)) ->
   apply_move "f1" "c4" None open_diagonal = (open_diagonal, illegal PathBlocked)) /\
  (forall self1 self2 piece' fr' to' capture,
      piece_type piece' = knight \/ piece_type piece' = king ->
      _validate_piece_move self1 piece' fr' to' capture None =
      _validate_piece_move self2 piece' fr' to' capture None /\
      _validate_piece_move self1 piece' fr' to' capture None <>
      illegal PathBlocked).
Proof.
  apply (slider_needs_clear_path open_diagonal "f1" "c4" None (7, 5) (4, 2)
           (mkPiece bishop white) None).
  - vm_compute. split; [reflexivity | repeat constructor].
  - vm_compute. reflexivity.
  - discriminate.
  - vm_compute. reflexivity.
  - vm_compute. reflexivity.
  - vm_compute. reflexivity.
  - vm_compute. reflexivity.
  - vm_compute. reflexivity.
  - reflexivity.
  - vm_compute. split; [reflexivity | discriminate].
Defined.

(** C5, counterexample: a pattern and a clear line are not enough when an
    earlier check fails.  In the initial position the rook's move a1-a2
    matches the rook's pattern and has no cell in between, and is rejected
    with the own-piece error; after e2-e4 and e7-e5 the black bishop's move
    f8-c5 runs along an empty diagonal and is rejected with the wrong-turn
    error, white being to move. *)
Lemma slider_stopped_by_earlier_checks :
  board_get (board new_game) (7, 0) = Return (Some (mkPiece rook white)) /\
  slider_pattern rook (fst (6, 0) - fst (7, 0)) (snd (6, 0) - snd (7, 0)) /\
  Forall (empty_cell (board new_game)) (between (7, 0) (6, 0)) /\
  apply_move "a1" "a2" None new_game = (new_game, illegal FriendlyCapture) /\
  ~ (exists self' record,
        apply_move "a1" "a2" None new_game = (self', Return record)) /\
  board_get (board open_diagonal) (0, 5) = Return (Some (mkPiece bishop black)) /\
  slider_pattern bishop (fst (3, 2) - fst (0, 5)) (snd (3, 2) - snd (0, 5)) /\
  Forall (empty_cell (board open_diagonal)) (between (0, 5) (3, 2)) /\
  apply_move "f8" "c5" None open_diagonal =
    (open_diagonal, illegal (WrongTurn white)) /\
  ~ (exists self' record,
        apply_move "f8" "c5" None open_diagonal = (self', Return record)).
Proof.
  assert (Hrook : apply_move "a1" "a2" None new_game =
                  (new_game, illegal FriendlyCapture))
    by (vm_compute; reflexivity).
  assert (Hbishop : apply_move "f8" "c5" None open_diagonal =
                    (open_diagonal, illegal (WrongTurn white)))
    by (vm_compute; reflexivity).
  split; [vm_compute; reflexivity |].
  split; [vm_compute; right; split; [discriminate | reflexivity] |].
  split; [vm_compute; constructor |].
  split; [exact Hrook |].
  split; [intros (self' & record & H); rewrite Hrook in H;
          apply (f_equal snd) in H; cbn [snd] in H; discriminate H |].
  split; [vm_compute; reflexivity |].
  split; [vm_compute; split; [reflexivity | discriminate] |].
  split; [vm_compute; repeat constructor |].
  split; [exact Hbishop |].
  intros (self' & record & H). rewrite Hbishop in H.
  apply (f_equal snd) in H. cbn [snd] in H. discriminate H.
Qed.

(** The scenarios of the bishop: through an occupied square, and along an
    open diagonal. *)
Example bishop_blocked :
  apply_move "c1" "e3" None new_game = (new_game, illegal PathBlocked).
Proof. vm_compute. reflexivity. Qed.

Example bishop_open_diagonal :
  snd (apply_move "f1" "c4" None open_diagonal) =
  Return (mkMoveRecord 2 white "f1" "c4" false None (mkPiece bishop white)).
Proof. vm_compute. reflexivity. Qed.

(** ** Promotion *)

Lemma moved_get (b b' : Board) (fr to : Index) (placed : Piece) :
  moved b b' fr to placed -> in_bounds to ->
  board_get b' to = Return (Some placed).
Proof.
  intros [Hwf Hcells] Hto. rewrite (board_get_wf _ _ Hwf Hto).
  rewrite (Hcells _ Hto). unfold index_eqb. rewrite !Z.eqb_refl. reflexivity.
Qed.

(** C6: when a legal pawn move reaches row 0 or 7 and no promotion code was
    supplied, the destination cell afterwards holds a queen of the mover's
    colour, the returned record has promotion "q", and the piece recorded is
    the pawn as it was before promotion. *)
Theorem default_promotion_is_queen (self self' : ChessGame) (from_sq to_sq : string)
    (fr to : Index) (piece : Piece) (record : MoveRecord) :
  wf_board (board self) ->
  algebraic_to_index from_sq = Return fr ->
  algebraic_to_index to_sq = Return to ->
  board_get (board self) fr = Return (Some piece) ->
  piece_type piece = pawn ->
  fst to = 0 \/ fst to = 7 ->
  apply_move from_sq to_sq None self = (self', Return record) ->
  board_get (board self') to = Return (Some (mkPiece queen (current_turn self))) /\
  move_promotion record = Some "q"%string /\
  move_piece record = mkPiece pawn (current_turn self) /\
  move_color record = current_turn self.
Proof.
  intros Hwf Hfr Hto Hsrc Hpawn Hlast Hrun.
  pose proof (algebraic_to_index_in_bounds _ _ Hfr) as Hbfr.
  pose proof (algebraic_to_index_in_bounds _ _ Hto) as Hbto.
  destruct (apply_move_inv self from_sq to_sq)
    as [(e & _ & Hall)
       | (fr' & to' & piece' & target & _ & _ & Hfr' & Hto' & Hsrc' & Hturn & Htgt & Hown & Hall)].
  { rewrite Hall in Hrun. discriminate. }
  rewrite Hfr in Hfr'. injection Hfr' as <-.
  rewrite Hto in Hto'. injection Hto' as <-.
  rewrite Hsrc in Hsrc'. injection Hsrc' as <-.
  rewrite Hall in Hrun. unfold validate_then_execute in Hrun.
  destruct (_validate_piece_move self piece fr to (occupied target) None)
    as [[] | e |]; try discriminate.
  pose proof (checked_distinct _ _ _ _ _ Hsrc Htgt Hown) as Hdist.
  pose proof (execute_move_spec piece fr to (occupied target) None
                from_sq to_sq self Hwf Hbfr Hbto Hdist) as Hexec.
  assert (Hp : is_pawn piece = true).
  { unfold is_pawn. rewrite Hpawn. reflexivity. }
  assert (Hl : last_rank to = true).
  { unfold last_rank. destruct Hlast as [-> | ->]; reflexivity. }
  cbv zeta in Hexec. rewrite Hp, Hl in Hexec.
  change (resolved_code None) with "q"%string in Hexec.
  cbn [andb negb valid_code existsb String.eqb Ascii.eqb Bool.eqb orb] in Hexec.
  destruct Hexec as (b' & placed & rec & Hmoved & (t & Hin & ->) & -> & Hexec).
  rewrite Hexec in Hrun. injection Hrun as <- <-.
  assert (Ht : t = queen).
  { simpl in Hin.
    destruct Hin as [[= <-] | [[=] | [[=] | [[=] | []]]]]. reflexivity. }
  subst t. cbn [board move_promotion move_piece move_color].
  rewrite Hturn.
  split; [| split; [reflexivity | split; [| reflexivity]]].
  - rewrite <- Hturn. eapply moved_get; eassumption.
  - destruct piece as [ty col]. simpl in Hpawn, Hturn. subst. reflexivity.
Qed.


Lemma pawn_on_a7_wf : wf_board (board pawn_on_a7).
Proof. vm_compute. split; [reflexivity | repeat constructor]. Qed.

Lemma default_promotion_is_queen_witness :
  board_get (board (fst (apply_move "a7" "b8" None pawn_on_a7))) (0, 1) =
    Return (Some (mkPiece queen (current_turn pawn_on_a7))) /\
  move_promotion
    (mkMoveRecord 5 white "a7" "b8" true (Some "q"%string) (mkPiece pawn white)) =
    Some "q"%string /\
  move_piece
    (mkMoveRecord 5 white "a7" "b8" true (Some "q"%string) (mkPiece pawn white)) =
    mkPiece pawn (current_turn pawn_on_a7) /\
  move_color
    (mkMoveRecord 5 white "a7" "b8" true (Some "q"%string) (mkPiece pawn white)) =
    current_turn pawn_on_a7.
Proof.
  apply (default_promotion_is_queen pawn_on_a7
           (fst (apply_move "a7" "b8" None pawn_on_a7)) "a7" "b8" (1, 0) (0, 1)
           (mkPiece pawn white)).
  - vm_compute. split; [reflexivity | repeat constructor].
  - vm_compute. reflexivity.
  - vm_compute. reflexivity.
  - vm_compute. reflexivity.
  - reflexivity.
  - left. reflexivity.
  - vm_compute. reflexivity.
Defined.

(** ** Failure and the state *)

Lemma require_clear_path_ends (self : ChessGame) (fr to : Index) :
  wf_board (board self) ->
  in_bounds fr -> in_bounds to -> fr <> to -> aligned fr to ->
  _require_clear_path self fr to <> OutOfFuel.
Proof.
  intros Hwf Hfr Hto Hne Hal.
  destruct (require_clear_path_outcome self fr to Hwf Hfr Hto Hne Hal)
    as [(_ & -> & _) | (_ & ->)]; discriminate.
Qed.

Lemma board_get_ends (b : Board) (idx : Index) : board_get b idx <> OutOfFuel.
Proof.
  destruct (board_get_error b idx) as [[cell ->] | ->]; discriminate.
Qed.

Lemma validate_pawn_move_ends (self : ChessGame) (piece : Piece) (fr to : Index)
    (dr dc : Z) (capture : bool) (promotion : option string) :
  _validate_pawn_move self piece fr to dr dc capture promotion <> OutOfFuel.
Proof.
  unfold _validate_pawn_move.
  repeat match goal with
    | |- context [if ?b then _ else _] => destruct b; try discriminate
    | |- context [board_get ?b ?i] =>
        destruct (board_get_error b i) as [[? ->] | ->]; simpl; try discriminate
    end.
Qed.

Lemma validate_piece_move_ends (self : ChessGame) (piece : Piece) (fr to : Index)
    (capture : bool) (promotion : option string) :
  wf_board (board self) -> in_bounds fr -> in_bounds to ->
  _validate_piece_move self piece fr to capture promotion <> OutOfFuel.
Proof.
  intros Hwf Hfr Hto. unfold _validate_piece_move.
  destruct (piece_type piece).
  - apply validate_pawn_move_ends.
  - ztests; try discriminate; apply require_clear_path_ends; try assumption;
      unfold aligned; try lia; intros ->; lia.
  - destruct (negb _); discriminate.
  - ztests; try discriminate; apply require_clear_path_ends; try assumption;
      unfold aligned; try lia; intros ->; lia.
  - ztests; try discriminate; apply require_clear_path_ends; try assumption;
      unfold aligned; try lia; intros ->; lia.
  - destruct (negb _); discriminate.
Qed.

(** The one way a failing [apply_move] can leave a trace: on a well-formed
    board a call that raises either leaves the object as it was, or it raises
    the invalid-promotion error after the pawn has been moved, with turn,
    status and history as before. *)
Lemma apply_move_failure (self self' : ChessGame) (from_sq to_sq : string)
    (promotion : option string) (e : exn) :
  wf_board (board self) ->
  apply_move from_sq to_sq promotion self = (self', Raise e) ->
  self' = self \/
  (e = IllegalMoveError InvalidPromotion /\
   exists fr to piece,
     is_pawn piece = true /\ last_rank to = true /\
     valid_code (resolved_code promotion) = false /\
     moved (board self) (board self') fr to piece /\
     current_turn self' = current_turn self /\
     game_status self' = game_status self /\
     history self' = history self).
Proof.
  intros Hwf Hrun.
  destruct (apply_move_inv self from_sq to_sq)
    as [(e' & _ & Hall)
       | (fr & to & piece & target & _ & _ & Hfr & Hto & Hsrc & _ & Htgt & Hown & Hall)].
  { rewrite Hall in Hrun. injection Hrun as <- _. left. reflexivity. }
  rewrite Hall in Hrun. unfold validate_then_execute in Hrun.
  destruct (_validate_piece_move self piece fr to (occupied target) promotion)
    as [[] | e' |].
  2:{ injection Hrun as <- _. left. reflexivity. }
  2:{ discriminate. }
  pose proof (algebraic_to_index_in_bounds _ _ Hfr) as Hbfr.
  pose proof (algebraic_to_index_in_bounds _ _ Hto) as Hbto.
  pose proof (checked_distinct _ _ _ _ _ Hsrc Htgt Hown) as Hdist.
  pose proof (execute_move_spec piece fr to (occupied target) promotion
                from_sq to_sq self Hwf Hbfr Hbto Hdist) as Hexec.
  cbv zeta in Hexec.
  destruct (is_pawn piece && last_rank to) eqn:Hp; cbn [andb] in Hexec.
  - destruct (valid_code (resolved_code promotion)) eqn:Hv; cbn [negb] in Hexec.
    + destruct Hexec as (b' & placed & rec & _ & _ & _ & Hexec).
      rewrite Hexec in Hrun. discriminate.
    + destruct Hexec as (b' & Hmoved & Hexec).
      rewrite Hexec in Hrun. injection Hrun as <- <-.
      apply andb_prop in Hp as [Hp Hl].
      right. split; [reflexivity |]. exists fr, to, piece. auto 10.
  - destruct Hexec as (b' & placed & rec & _ & _ & _ & Hexec).
    rewrite Hexec in Hrun. discriminate.
Qed.

Lemma apply_move_preserves_wf (self : ChessGame) (from_sq to_sq : string)
    (promotion : option string) :
  wf_board (board self) ->
  wf_board (board (fst (apply_move from_sq to_sq promotion self))).
Proof.
  intros Hwf.
  destruct (apply_move_inv self from_sq to_sq)
    as [(e' & _ & Hall)
       | (fr & to & piece & target & _ & _ & Hfr & Hto & Hsrc & _ & Htgt & Hown & Hall)];
    rewrite Hall; [exact Hwf |].
  unfold validate_then_execute.
  destruct (_validate_piece_move self piece fr to (occupied target) promotion)
    as [[] | e' |]; try exact Hwf.
  pose proof (algebraic_to_index_in_bounds _ _ Hfr) as Hbfr.
  pose proof (algebraic_to_index_in_bounds _ _ Hto) as Hbto.
  pose proof (checked_distinct _ _ _ _ _ Hsrc Htgt Hown) as Hdist.
  pose proof (execute_move_spec piece fr to (occupied target) promotion
                from_sq to_sq self Hwf Hbfr Hbto Hdist) as Hexec.
  cbv zeta in Hexec.
  destruct (is_pawn piece && last_rank to && negb (valid_code (resolved_code promotion))).
  - destruct Hexec as (b' & [Hwf' _] & ->). exact Hwf'.
  - destruct Hexec as (b' & placed & rec & [Hwf' _] & _ & _ & ->). exact Hwf'.
Qed.

Lemma apply_move_preserves_status (self : ChessGame) (from_sq to_sq : string)
    (promotion : option string) :
  wf_board (board self) ->
  game_status (fst (apply_move from_sq to_sq promotion self)) = game_status self.
Proof.
  intros Hwf.
  destruct (apply_move_inv self from_sq to_sq)
    as [(e' & _ & Hall)
       | (fr & to & piece & target & _ & _ & Hfr & Hto & Hsrc & _ & Htgt & Hown & Hall)];
    rewrite Hall; [reflexivity |].
  unfold validate_then_execute.
  destruct (_validate_piece_move self piece fr to (occupied target) promotion)
    as [[] | e' |]; try reflexivity.
  pose proof (algebraic_to_index_in_bounds _ _ Hfr) as Hbfr.
  pose proof (algebraic_to_index_in_bounds _ _ Hto) as Hbto.
  pose proof (checked_distinct _ _ _ _ _ Hsrc Htgt Hown) as Hdist.
  pose proof (execute_move_spec piece fr to (occupied target) promotion
                from_sq to_sq self Hwf Hbfr Hbto Hdist) as Hexec.
  cbv zeta in Hexec.
  destruct (is_pawn piece && last_rank to && negb (valid_code (resolved_code promotion))).
  - destruct Hexec as (b' & _ & ->). reflexivity.
  - destruct Hexec as (b' & placed & rec & _ & _ & _ & ->). reflexivity.
Qed.

Lemma reachable_wf (self : ChessGame) : reachable self -> wf_board (board self).
Proof.
  induction 1 as [| self _ _ | self from_sq to_sq promotion _ IH].
  - exact new_game_wf.
  - rewrite restart_result. exact new_game_wf.
  - apply apply_move_preserves_wf. exact IH.
Qed.

Lemma reachable_in_progress (self : ChessGame) :
  reachable self -> game_status self = "in_progress"%string.
Proof.
  induction 1 as [| self _ _ | self from_sq to_sq promotion Hreach IH].
  - reflexivity.
  - rewrite restart_result. reflexivity.
  - rewrite apply_move_preserves_status; [exact IH |].
    apply reachable_wf. exact Hreach.
Qed.

Lemma play_reachable (self : ChessGame) (requests : list Request) :
  reachable self -> reachable (play self requests).
Proof.
  revert self. induction requests as [| [[f t] p] requests IH]; intros self H.
  - exact H.
  - apply IH. apply reach_move. exact H.
Qed.

(** C1, at a failing input: in the position reached from the initial one by
    a2-a4, b7-b5, a4xb5, h7-h6, b5-b6, h6-h5, b6xa7, h5-h4, the request to
    move a7 to b8 with promotion code "x" is rejected with the
    invalid-promotion error, and yet the board has changed: the pawn now
    stands on b8, a7 is empty and the knight that stood on b8 is gone, while
    the turn and the history are as before. *)
Theorem rejected_promotion_moves_pawn :
  reachable pawn_on_a7 /\
  snd (apply_move "a7" "b8" (Some "x"%string) pawn_on_a7) = illegal InvalidPromotion /\
  board_get (board pawn_on_a7) (1, 0) = Return (Some (mkPiece pawn white)) /\
  board_get (board pawn_on_a7) (0, 1) = Return (Some (mkPiece knight black)) /\
  board_get (board (fst (apply_move "a7" "b8" (Some "x"%string) pawn_on_a7))) (1, 0) =
    Return None /\
  board_get (board (fst (apply_move "a7" "b8" (Some "x"%string) pawn_on_a7))) (0, 1) =
    Return (Some (mkPiece pawn white)) /\
  current_turn (fst (apply_move "a7" "b8" (Some "x"%string) pawn_on_a7)) =
    current_turn pawn_on_a7 /\
  history (fst (apply_move "a7" "b8" (Some "x"%string) pawn_on_a7)) =
    history pawn_on_a7 /\
  fst (apply_move "a7" "b8" (Some "x"%string) pawn_on_a7) <> pawn_on_a7.
Proof.
  split; [apply play_reachable, reach_new |].
  split; [vm_compute; reflexivity |].
  split; [vm_compute; reflexivity |].
  split; [vm_compute; reflexivity |].
  split; [vm_compute; reflexivity |].
  split; [vm_compute; reflexivity |].
  split; [vm_compute; reflexivity |].
  split; [vm_compute; reflexivity |].
  vm_compute. discriminate.
Qed.

(** ** The pawn rule without capture *)

(** C4, as the code has it: for a non-capturing pawn move that has passed
    the promotion check, a file change fails with the illegal-pawn-move
    reason for sideways moves; a single step forward is accepted exactly
    when the destination is empty, else PawnBlocked; a double step from the
    start row (6 for white, 1 for black) is accepted exactly when the
    intermediate and the destination cells are empty, else PawnBlocked; a
    double step from any other row, like every other dr, fails with the
    illegal-pawn-move reason. *)
Theorem pawn_advance_rule (self : ChessGame) (piece : Piece) (fr to : Index)
    (promotion : option string) :
  wf_board (board self) -> in_bounds fr -> in_bounds to ->
  (promotion = None \/ fst to = 0 \/ fst to = 7) ->
  let dr := fst to - fst fr in
  let dc := snd to - snd fr in
  let direction := match piece_color piece with white => -1 | black => 1 end in
  let start_row := match piece_color piece with white => 6 | black => 1 end in
  let verdict := _validate_pawn_move self piece fr to dr dc false promotion in
  (dc <> 0 -> verdict = illegal IllegalPawnMoveStraight) /\
  (dc = 0 -> dr = direction ->
   (verdict = Return tt <-> empty_cell (board self) to) /\
   (~ empty_cell (board self) to -> verdict = illegal PawnBlocked)) /\
  (dc = 0 -> dr = 2 * direction -> fst fr = start_row ->
   (verdict = Return tt <->
    empty_cell (board self) (fst fr + direction, snd fr) /\
    empty_cell (board self) to) /\
   (~ (empty_cell (board self) (fst fr + direction, snd fr) /\
       empty_cell (board self) to) ->
    verdict = illegal PawnBlocked)) /\
  (dc = 0 -> dr = 2 * direction -> fst fr <> start_row ->
   verdict = illegal IllegalPawnMove) /\
  (dc = 0 -> dr <> direction -> dr <> 2 * direction ->
   verdict = illegal IllegalPawnMove).
Proof.
  intros Hwf Hfr Hto Hpromo dr dc direction start_row verdict.
  assert (Hcheck : (match promotion with Some _ => true | None => false end)
                   && negb ((fst to =? 0) || (fst to =? 7)) = false).
  { destruct Hpromo as [-> | [-> | ->]]; [reflexivity | |];
      destruct promotion; reflexivity. }
  pose proof (board_get_wf _ _ Hwf Hto) as Hdest.
  assert (Hmid : fst fr = start_row ->
                 board_get (board self) (fst fr + direction, snd fr) =
                 Return (cell_at (board self) (fst fr + direction, snd fr))).
  { intros Hrow. apply board_get_wf; [exact Hwf |].
    subst start_row direction. destruct Hfr as [_ Hc].
    unfold in_bounds. cbn [fst snd]. destruct (piece_color piece); lia. }
  subst verdict. unfold _validate_pawn_move. rewrite Hcheck, Hdest.
  subst dr dc direction start_row. unfold empty_cell.
  destruct (piece_color piece); cbn [color_eqb] in *.
  all: split; [| split; [| split; [| split]]].
  all: try (intros Hdc; destruct (Z.eqb_spec (snd to - snd fr) 0); [lia | reflexivity]).
  all: intros Hdc Hdr; try intros Hrow.
  all: repeat ztest; cbn [negb andb obind].
  all: try reflexivity.
  all: try rewrite Hmid by assumption; cbn [obind].
  all: cell_cases.
  all: unfold illegal in *; intuition congruence.
Qed.

Lemma pawn_advance_rule_witness :
  let self := new_game in
  let piece := mkPiece pawn white in
  let fr := (6, 4) in
  let to := (4, 4) in
  let dr := fst to - fst fr in
  let dc := snd to - snd fr in
  let direction := match piece_color piece with white => -1 | black => 1 end in
  let start_row := match piece_color piece with white => 6 | black => 1 end in
  let verdict := _validate_pawn_move self piece fr to dr dc false None in
  (dc <> 0 -> verdict = illegal IllegalPawnMoveStraight) /\
  (dc = 0 -> dr = direction ->
   (verdict = Return tt <-> empty_cell (board self) to) /\
   (~ empty_cell (board self) to -> verdict = illegal PawnBlocked)) /\
  (dc = 0 -> dr = 2 * direction -> fst fr = start_row ->
   (verdict = Return tt <->
    empty_cell (board self) (fst fr + direction, snd fr) /\
    empty_cell (board self) to) /\
   (~ (empty_cell (board self) (fst fr + direction, snd fr) /\
       empty_cell (board self) to) ->
    verdict = illegal PawnBlocked)) /\
  (dc = 0 -> dr = 2 * direction -> fst fr <> start_row ->
   verdict = illegal IllegalPawnMove) /\
  (dc = 0 -> dr <> direction -> dr <> 2 * direction ->
   verdict = illegal IllegalPawnMove).
Proof.
  intros self piece fr to.
  apply (pawn_advance_rule self piece fr to None).
  - vm_compute. split; [reflexivity | repeat constructor].
  - unfold in_bounds; simpl; lia.
  - unfold in_bounds; simpl; lia.
  - left. reflexivity.
Defined.

Lemma pawn_on_e4_reachable : reachable pawn_on_e4.
Proof. apply play_reachable, reach_new. Qed.

(** C4, counterexample to the error of a double step: after e2-e4 and a7-a6
    the white pawn on e4 is off its start row; e5 and e6 are empty; the
    double step e4-e6 is rejected with the illegal-pawn-move reason, not
    with PawnBlocked. *)
Lemma double_step_off_start_row :
  reachable pawn_on_e4 /\
  board_get (board pawn_on_e4) (4, 4) = Return (Some (mkPiece pawn white)) /\
  board_get (board pawn_on_e4) (3, 4) = Return None /\
  board_get (board pawn_on_e4) (2, 4) = Return None /\
  2 - 4 = 2 * -1 /\
  apply_move "e4" "e6" None pawn_on_e4 = (pawn_on_e4, illegal IllegalPawnMove) /\
  _validate_pawn_move pawn_on_e4 (mkPiece pawn white) (4, 4) (2, 4) (2 - 4) (4 - 4)
                      false None = illegal IllegalPawnMove /\
  snd (apply_move "e4" "e6" None pawn_on_e4) <> illegal PawnBlocked.
Proof.
  split; [exact pawn_on_e4_reachable |].
  split; [vm_compute; reflexivity |].
  split; [vm_compute; reflexivity |].
  split; [vm_compute; reflexivity |].
  split; [reflexivity |].
  split; [vm_compute; reflexivity |].
  split; [vm_compute; reflexivity |].
  vm_compute. discriminate.
Qed.

(** The scenarios of the pawn from the initial position. *)
Example e2_e4_accepted :
  exists self',
    apply_move "e2" "e4" None new_game =
      (self', Return (mkMoveRecord 1 white "e2" "e4" false None (mkPiece pawn white))) /\
    board_get (board self') (4, 4) = Return (Some (mkPiece pawn white)) /\
    board_get (board self') (6, 4) = Return None.
Proof.
  eexists. split; [vm_compute; reflexivity |].
  split; vm_compute; reflexivity.
Qed.

Example e2_e5_rejected :
  apply_move "e2" "e5" None new_game = (new_game, illegal IllegalPawnMove).
Proof. vm_compute. reflexivity. Qed.

(** ** The same-square check *)

(** C2, as the code has it: in a game in progress, two equal input strings,
    well-formed or not, are rejected with SameSquare before any parsing; two
    different strings that name one square (such as "E2" and "e2") pass this
    check and are rejected further on, with the empty-source, wrong-turn or
    own-piece reason, the state being left as it was. *)
Theorem same_square_check (self : ChessGame) (from_sq to_sq : string)
    (promotion : option string) :
  game_status self = "in_progress"%string ->
  (from_sq = to_sq ->
   apply_move from_sq to_sq promotion self = (self, illegal SameSquare)) /\
  (from_sq <> to_sq ->
   forall idx source,
     algebraic_to_index from_sq = Return idx ->
     algebraic_to_index to_sq = Return idx ->
     board_get (board self) idx = Return source ->
     exists why,
       apply_move from_sq to_sq promotion self = (self, illegal why) /\
       why <> SameSquare /\
       In why [EmptySource from_sq; WrongTurn (current_turn self); FriendlyCapture]).
Proof.
  intros Hst.
  assert (Hst' : String.eqb (game_status self) "in_progress" = true).
  { rewrite Hst. reflexivity. }
  split.
  - intros <-. open_apply_move. step Hst'. rewrite String.eqb_refl. reflexivity.
  - intros Hne idx source Hfr Hto Hsrc.
    apply String.eqb_neq in Hne.
    open_apply_move. step Hst'. step Hne. step Hfr. step Hto. step Hsrc.
    destruct source as [piece |].
    + destruct (color_eqb (piece_color piece) (current_turn self)) eqn:Hturn;
        cbn beta iota delta [negb].
      * step Hsrc.
        assert (Hown : own_piece (Some piece) piece = true).
        { simpl. destruct (piece_color piece); reflexivity. }
        step Hown. exists FriendlyCapture.
        split; [reflexivity | split; [discriminate | simpl; auto]].
      * exists (WrongTurn (current_turn self)).
        split; [reflexivity | split; [discriminate | simpl; auto]].
    + exists (EmptySource from_sq).
      split; [reflexivity | split; [discriminate | simpl; auto]].
Qed.

Lemma same_square_check_witness :
  ("e9"%string = "e9"%string ->
   apply_move "e9" "e9" None new_game = (new_game, illegal SameSquare)) /\
  ("e9"%string <> "e9"%string ->
   forall idx source,
     algebraic_to_index "e9" = Return idx ->
     algebraic_to_index "e9" = Return idx ->
     board_get (board new_game) idx = Return source ->
     exists why,
       apply_move "e9" "e9" None new_game = (new_game, illegal why) /\
       why <> SameSquare /\
       In why [EmptySource "e9"; WrongTurn (current_turn new_game); FriendlyCapture]).
Proof.
  apply (same_square_check new_game "e9" "e9" None). reflexivity.
Defined.

(** C2, counterexample: "E2" and "e2" name the same square, and in the
    initial position the request to move from one to the other is rejected
    with the own-piece reason, not with SameSquare. *)
Lemma same_square_in_other_case :
  game_status new_game = "in_progress"%string /\
  algebraic_to_index "E2" = Return (6, 4) /\
  algebraic_to_index "e2" = Return (6, 4) /\
  apply_move "E2" "e2" None new_game = (new_game, illegal FriendlyCapture) /\
  snd (apply_move "E2" "e2" None new_game) <> illegal SameSquare.
Proof.
  split; [reflexivity |].
  split; [reflexivity |].
  split; [reflexivity |].
  split; [vm_compute; reflexivity |].
  vm_compute. discriminate.
Qed.

(** ** The fuel of the clear-path loop is never the reason to stop *)

Lemma board_get_outside (b : Board) (r c : Z) :
  wf_board b ->
  r < -8 \/ 7 < r \/ c < -8 \/ 7 < c ->
  board_get b (r, c) = Raise IndexError.
Proof.
  intros Hwf Hout. unfold board_get. cbn [fst snd].
  destruct (Py.getitem b r) as [row | e |] eqn:Hrow; cbn [obind].
  - assert (Hlen : length row = 8%nat).
    { eapply wf_board_row; [exact Hwf |]. eapply getitem_Return_elem. exact Hrow. }
    assert (Hr : -8 <= r <= 7).
    { unfold Py.getitem in Hrow. destruct Hwf as [Hb _]. rewrite Hb in Hrow.
      unfold Py.index in Hrow. revert Hrow. ztests; try discriminate; lia. }
    unfold Py.getitem, Py.index. rewrite Hlen.
    ztests; try reflexivity; lia.
  - destruct (getitem_error b r) as [[x Hx] | Hx]; congruence.
  - destruct (getitem_error b r) as [[x Hx] | Hx]; congruence.
Qed.

Lemma clear_path_loop_ends (self : ChessGame) (step_r step_c : Z) (to : Index) :
  wf_board (board self) ->
  forall (fuel : nat) (r c : Z),
    (1 <= fuel)%nat ->
    (step_r = 1 /\ (r < -8 \/ 7 < r \/ 8 - r < Z.of_nat fuel)) \/
    (step_r = -1 /\ (r < -8 \/ 7 < r \/ r + 9 < Z.of_nat fuel)) \/
    (step_c = 1 /\ (c < -8 \/ 7 < c \/ 8 - c < Z.of_nat fuel)) \/
    (step_c = -1 /\ (c < -8 \/ 7 < c \/ c + 9 < Z.of_nat fuel)) ->
    snd (clear_path_loop fuel self step_r step_c to r c) <> OutOfFuel.
Proof.
  intros Hwf. induction fuel as [| fuel IH]; intros r c Hfuel Hroom; [lia |].
  cbn [clear_path_loop].
  destruct (negb (index_eqb (r, c) to)); [| discriminate].
  destruct (Z_lt_dec r (-8)) as [Hr1 | Hr1];
    [rewrite board_get_outside by (exact Hwf || lia); discriminate |].
  destruct (Z_lt_dec 7 r) as [Hr2 | Hr2];
    [rewrite board_get_outside by (exact Hwf || lia); discriminate |].
  destruct (Z_lt_dec c (-8)) as [Hc1 | Hc1];
    [rewrite board_get_outside by (exact Hwf || lia); discriminate |].
  destruct (Z_lt_dec 7 c) as [Hc2 | Hc2];
    [rewrite board_get_outside by (exact Hwf || lia); discriminate |].
  destruct (board_get_error (board self) (r, c)) as [[cell ->] | ->];
    [| discriminate].
  destruct (occupied cell); [discriminate |].
  specialize (IH (r + step_r) (c + step_c)).
  destruct (clear_path_loop fuel self step_r step_c to (r + step_r) (c + step_c))
    as [seen res].
  cbn [snd] in *. apply IH; lia.
Qed.

Lemma require_clear_path_always_ends (self : ChessGame) (fr to : Index) :
  wf_board (board self) -> _require_clear_path self fr to <> OutOfFuel.
Proof.
  intros Hwf. unfold _require_clear_path, clear_path_run.
  rewrite !sign_step_sgn.
  destruct (Z.eq_dec (fst to - fst fr) 0) as [Hr | Hr];
    [destruct (Z.eq_dec (snd to - snd fr) 0) as [Hc | Hc] |].
  - rewrite Hr, Hc. cbn [Z.sgn]. unfold path_fuel. cbn [clear_path_loop].
    replace (index_eqb (fst fr + 0, snd fr + 0) to) with true; [discriminate |].
    unfold index_eqb. cbn [fst snd]. symmetry. apply andb_true_iff.
    split; apply Z.eqb_eq; lia.
  - apply clear_path_loop_ends; [exact Hwf | unfold path_fuel; lia |].
    unfold path_fuel.
    destruct (Z.sgn_spec (snd to - snd fr)) as [[H ->] | [[H ->] | [H ->]]]; lia.
  - apply clear_path_loop_ends; [exact Hwf | unfold path_fuel; lia |].
    unfold path_fuel.
    destruct (Z.sgn_spec (fst to - fst fr)) as [[H ->] | [[H ->] | [H ->]]]; lia.
Qed.

Lemma apply_move_ends (self : ChessGame) (from_sq to_sq : string)
    (promotion : option string) :
  wf_board (board self) ->
  snd (apply_move from_sq to_sq promotion self) <> OutOfFuel.
Proof.
  intros Hwf.
  destruct (apply_move_inv self from_sq to_sq)
    as [(e' & _ & Hall)
       | (fr & to & piece & target & _ & _ & Hfr & Hto & Hsrc & _ & Htgt & Hown & Hall)];
    rewrite Hall; [discriminate |].
  pose proof (algebraic_to_index_in_bounds _ _ Hfr) as Hbfr.
  pose proof (algebraic_to_index_in_bounds _ _ Hto) as Hbto.
  pose proof (validate_piece_move_ends self piece fr to (occupied target) promotion
                Hwf Hbfr Hbto) as Hval.
  unfold validate_then_execute.
  destruct (_validate_piece_move self piece fr to (occupied target) promotion)
    as [[] | e' |]; [| discriminate | congruence].
  pose proof (checked_distinct _ _ _ _ _ Hsrc Htgt Hown) as Hdist.
  pose proof (execute_move_spec piece fr to (occupied target) promotion
                from_sq to_sq self Hwf Hbfr Hbto Hdist) as Hexec.
  cbv zeta in Hexec.
  destruct (is_pawn piece && last_rank to && negb (valid_code (resolved_code promotion))).
  - destruct Hexec as (b' & _ & ->). discriminate.
  - destruct Hexec as (b' & placed & rec & _ & _ & _ & ->). discriminate.
Qed.

(** * Further properties of the engine *)

(** ** Coordinate conversion: what is accepted, what is produced *)

Lemma ord_bounded (ch : ascii) : 0 <= Py.ord ch < 256.
Proof. unfold Py.ord. pose proof (N_ascii_bounded ch). lia. Qed.

Lemma ord_chr (z : Z) : 0 <= z < 256 -> Py.ord (Py.chr z) = z.
Proof.
  intros H. unfold Py.ord, Py.chr. rewrite N_ascii_embedding by lia. lia.
Qed.

Lemma chr_ord (ch : ascii) : Py.chr (Py.ord ch) = ch.
Proof.
  unfold Py.ord, Py.chr. rewrite N2Z.id. apply ascii_N_embedding.
Qed.

Lemma lower_char_file (f : ascii) :
  97 <= Py.ord (Py.lower_char f) <= 104 <->
  (97 <= Py.ord f <= 104 \/ 65 <= Py.ord f <= 72).
Proof.
  pose proof (ord_bounded f) as Hb. unfold Py.lower_char.
  destruct (((65 <=? Py.ord f) && (Py.ord f <=? 90))
            || ((192 <=? Py.ord f) && (Py.ord f <=? 222) && negb (Py.ord f =? 215)))
    eqn:Hup.
  - assert (Hcases : 65 <= Py.ord f <= 90 \/ 192 <= Py.ord f <= 222).
    { revert Hup. ztests; try discriminate; lia. }
    rewrite ord_chr by lia. lia.
  - assert (Hcases : ~ 65 <= Py.ord f <= 90).
    { revert Hup. ztests; try discriminate; lia. }
    lia.
Qed.

(** X1: [algebraic_to_index] returns an index exactly for the valid square
    strings (two characters, file a-h in either case, rank 1-8); the index
    is then within the board; every other string raises one of the three
    square errors, and a string whose length is not 2 raises the form
    error whatever it holds. *)
Theorem algebraic_to_index_accepts (s : string) :
  (valid_square s = true <-> exists idx, algebraic_to_index s = Return idx) /\
  (forall idx, algebraic_to_index s = Return idx -> in_bounds idx) /\
  (valid_square s = false ->
   exists why, algebraic_to_index s = illegal why /\
               In why [SquareForm; FileRange; RankRange]) /\
  (String.length s <> 2%nat -> algebraic_to_index s = illegal SquareForm).
Proof.
  assert (Hconv : (exists idx, algebraic_to_index s = Return idx) ->
                  valid_square s = true).
  { intros [idx Hidx]. unfold algebraic_to_index, valid_square in *.
    destruct s as [| f [| r [| ? ?]]]; try discriminate.
    change (Py.ord "a") with 97 in *. change (Py.ord "h") with 104 in *.
    change (Py.ord "A") with 65. change (Py.ord "H") with 72.
    change (Py.ord "1") with 49 in *. change (Py.ord "8") with 56 in *.
    pose proof (lower_char_file f) as Hfile.
    revert Hidx. ztests; try discriminate; intros _; try reflexivity; lia. }
  split; [split; [apply valid_square_parses | exact Hconv] |].
  split; [apply algebraic_to_index_in_bounds |].
  split.
  - intros Hinv.
    destruct (algebraic_to_index_error s) as [Hok | Herr]; [| exact Herr].
    rewrite (Hconv Hok) in Hinv. discriminate.
  - intros Hlen. unfold algebraic_to_index.
    destruct s as [| f [| r [| ? ?]]]; try reflexivity.
    simpl in Hlen. lia.
Qed.

Lemma index_to_algebraic_in_bounds (idx : Index) :
  in_bounds idx -> index_to_algebraic idx = Return (square_name idx).
Proof.
  intros [Hr Hc]. destruct idx as [row col]. cbn [fst snd] in *.
  unfold index_to_algebraic, square_name. cbn [fst snd].
  replace ((0 <=? row) && (row <=? 7) && (0 <=? col) && (col <=? 7)) with true;
    [reflexivity |].
  symmetry. ztests; try reflexivity; lia.
Qed.

(** X2: [index_to_algebraic] raises the out-of-bounds error exactly outside
    the 8x8 board; inside, it returns a valid square name that is already
    in lower case and that [algebraic_to_index] maps back to the same
    index, so distinct cells get distinct names. *)
Theorem index_to_algebraic_names (idx : Index) :
  (in_bounds idx ->
   index_to_algebraic idx = Return (square_name idx) /\
   valid_square (square_name idx) = true /\
   Py.lower (square_name idx) = square_name idx /\
   algebraic_to_index (square_name idx) = Return idx) /\
  (~ in_bounds idx -> index_to_algebraic idx = illegal IndexOutOfBounds) /\
  (forall idx', in_bounds idx -> in_bounds idx' ->
                square_name idx = square_name idx' -> idx = idx').
Proof.
  assert (Hback : forall i, in_bounds i ->
                            algebraic_to_index (square_name i) = Return i).
  { intros i Hi. pose proof (index_round_trip i Hi) as Hrt.
    rewrite index_to_algebraic_in_bounds in Hrt by exact Hi. exact Hrt. }
  split; [| split].
  - intros Hin. split; [apply index_to_algebraic_in_bounds; exact Hin |].
    split; [| split; [| apply Hback; exact Hin]].
    + destruct idx as [row col].
      destruct (in_bounds_cases _ Hin) as [Hr Hc]. simpl in Hr, Hc.
      repeat (destruct Hr as [<- | Hr]; [| try contradiction]);
        repeat (destruct Hc as [<- | Hc]; [| try contradiction]);
        vm_compute; reflexivity.
    + destruct idx as [row col].
      destruct (in_bounds_cases _ Hin) as [Hr Hc]. simpl in Hr, Hc.
      repeat (destruct Hr as [<- | Hr]; [| try contradiction]);
        repeat (destruct Hc as [<- | Hc]; [| try contradiction]);
        vm_compute; reflexivity.
  - intros Hout. destruct idx as [row col].
    unfold index_to_algebraic, in_bounds in *. cbn [fst snd] in *.
    ztests; try reflexivity; lia.
  - intros idx' Hin Hin' Heq.
    pose proof (Hback idx Hin) as H1. pose proof (Hback idx' Hin') as H2.
    rewrite Heq in H1. congruence.
Qed.

(** X3: input is case-insensitive and output is lower case: for a valid
    square string, converting to an index and back gives the string in
    lower case. *)
Theorem square_name_is_lowercase (s : string) :
  valid_square s = true ->
  (let* idx := algebraic_to_index s in index_to_algebraic idx)%outcome =
  Return (Py.lower s).
Proof.
  intros Hvalid.
  destruct (valid_square_parses s Hvalid) as [idx Hidx].
  pose proof (algebraic_to_index_in_bounds s idx Hidx) as Hin.
  rewrite Hidx. cbn [obind].
  rewrite index_to_algebraic_in_bounds by exact Hin. f_equal.
  unfold valid_square, algebraic_to_index in *.
  destruct s as [| f [| r [| ? ?]]]; try discriminate.
  change (Py.ord "a") with 97 in *. change (Py.ord "h") with 104 in *.
  change (Py.ord "1") with 49 in *. change (Py.ord "8") with 56 in *.
  apply andb_prop in Hvalid as [Hvalid Hr8]. apply andb_prop in Hvalid as [_ Hr1].
  apply Z.leb_le in Hr8, Hr1.
  revert Hidx. ztests; try discriminate. intros [= <-].
  unfold square_name, Py.int_digit. cbn [fst snd Py.lower].
  change (Py.ord "a") with 97. change (Py.ord "0") with 48.
  replace (97 + (Py.ord (Py.lower_char f) - 97)) with (Py.ord (Py.lower_char f))
    by lia.
  rewrite chr_ord. f_equal.
  replace (8 - (8 - (Py.ord r - 48))) with (Py.ord r - 48) by lia.
  rewrite <- (chr_ord r).
  assert (Hr : In (Py.ord r) [49; 50; 51; 52; 53; 54; 55; 56]) by (simpl; lia).
  simpl in Hr.
  repeat (destruct Hr as [<- | Hr]; [vm_compute; reflexivity |]).
  contradiction.
Qed.

Lemma square_name_is_lowercase_witness :
  (let* idx := algebraic_to_index "E2" in index_to_algebraic idx)%outcome =
  Return (Py.lower "E2").
Proof. apply (square_name_is_lowercase "E2"). reflexivity. Defined.

(** ** What an accepted move does *)

Lemma apply_move_returns (self self' : ChessGame) (from_sq to_sq : string)
    (promotion : option string) (record : MoveRecord) :
  wf_board (board self) ->
  apply_move from_sq to_sq promotion self = (self', Return record) ->
  exists fr to piece placed,
    algebraic_to_index from_sq = Return fr /\
    algebraic_to_index to_sq = Return to /\
    in_bounds fr /\ in_bounds to /\ fr <> to /\
    cell_at (board self) fr = Some piece /\
    piece_color piece = current_turn self /\
    own_piece (cell_at (board self) to) piece = false /\
    _validate_piece_move self piece fr to (occupied (cell_at (board self) to))
                         promotion = Return tt /\
    moved (board self) (board self') fr to placed /\
    (if is_pawn piece && last_rank to
     then exists t, In (resolved_code promotion, t) promotion_types /\
                    placed = mkPiece t (piece_color piece)
     else placed = piece) /\
    record =
      mkMoveRecord (Z.of_nat (length (history self)) / 2 + 1) (current_turn self)
                   from_sq to_sq (occupied (cell_at (board self) to))
                   (if is_pawn piece && last_rank to
                    then Some (resolved_code promotion) else None) piece /\
    history self' = history self ++ [record] /\
    current_turn self' = other_color (current_turn self) /\
    game_status self' = game_status self.
Proof.
  intros Hwf Hrun.
  destruct (apply_move_inv self from_sq to_sq)
    as [(e' & _ & Hall)
       | (fr & to & piece & target & _ & _ & Hfr & Hto & Hsrc & Hturn & Htgt & Hown & Hall)].
  { rewrite Hall in Hrun. discriminate. }
  pose proof (algebraic_to_index_in_bounds _ _ Hfr) as Hbfr.
  pose proof (algebraic_to_index_in_bounds _ _ Hto) as Hbto.
  pose proof (checked_distinct _ _ _ _ _ Hsrc Htgt Hown) as Hdist.
  rewrite (board_get_wf _ _ Hwf Hbfr) in Hsrc. injection Hsrc as Hsrc.
  rewrite (board_get_wf _ _ Hwf Hbto) in Htgt. injection Htgt as Htgt.
  subst target.
  rewrite Hall in Hrun. unfold validate_then_execute in Hrun.
  destruct (_validate_piece_move self piece fr to
              (occupied (cell_at (board self) to)) promotion)
    as [[] | e' |] eqn:Hval; try discriminate.
  pose proof (execute_move_spec piece fr to (occupied (cell_at (board self) to))
                promotion from_sq to_sq self Hwf Hbfr Hbto Hdist) as Hexec.
  cbv zeta in Hexec.
  destruct (is_pawn piece && last_rank to) eqn:Hp; cbn [andb] in Hexec.
  - destruct (valid_code (resolved_code promotion)) eqn:Hv; cbn [negb] in Hexec.
    + destruct Hexec as (b' & placed & rec & Hmoved & Hplaced & -> & Hexec).
      rewrite Hexec in Hrun. injection Hrun as <- <-.
      exists fr, to, piece, placed. rewrite Hp, <- Hturn.
      cbn [board history current_turn game_status].
      repeat (split; [first [assumption | reflexivity] |]). reflexivity.
    + destruct Hexec as (b' & _ & Hexec). rewrite Hexec in Hrun. discriminate.
  - destruct Hexec as (b' & placed & rec & Hmoved & Hplaced & -> & Hexec).
    rewrite Hexec in Hrun. injection Hrun as <- <-.
    exists fr, to, piece, placed. rewrite Hp, <- Hturn.
    cbn [board history current_turn game_status].
    repeat (split; [first [assumption | reflexivity] |]). reflexivity.
Qed.

Lemma index_eqb_eq (a b : Index) : index_eqb a b = true <-> a = b.
Proof.
  destruct a as [r c], b as [r' c']. unfold index_eqb. cbn [fst snd].
  rewrite andb_true_iff, !Z.eqb_eq. split; [intros [-> ->]; reflexivity |].
  intros [= -> ->]. auto.
Qed.

Lemma index_eqb_neq (a b : Index) : index_eqb a b = false <-> a <> b.
Proof.
  rewrite <- index_eqb_eq. destruct (index_eqb a b); split; congruence.
Qed.


Lemma other_color_neq (c : Color) : other_color c <> c.
Proof. destruct c; discriminate. Qed.




(** ** What a call can raise *)

Lemma validate_pawn_move_outcome (self : ChessGame) (piece : Piece) (fr to : Index)
    (dr dc : Z) (capture : bool) (promotion : option string) :
  wf_board (board self) -> in_bounds fr -> in_bounds to ->
  _validate_pawn_move self piece fr to dr dc capture promotion = Return tt \/
  exists why,
    _validate_pawn_move self piece fr to dr dc capture promotion = illegal why /\
    In why [PromotionNotAllowed; IllegalPawnCapture; IllegalPawnMoveStraight;
            PawnBlocked; IllegalPawnMove].
Proof.
  intros Hwf Hfr Hto. unfold _validate_pawn_move.
  rewrite (board_get_wf _ _ Hwf Hto).
  destruct (_ && negb _); [right; eexists; split; [reflexivity | simpl; auto] |].
  destruct capture.
  { destruct (_ || _); [right; eexists; split; [reflexivity | simpl; auto] | auto]. }
  destruct (negb (dc =? 0));
    [right; eexists; split; [reflexivity | simpl; auto] |].
  destruct (dr =? _).
  { cbn [obind]. destruct (occupied _);
      [right; eexists; split; [reflexivity | simpl; auto 10] | auto]. }
  destruct (Z.eqb_spec (fst fr)
              (if color_eqb (piece_color piece) white then 6 else 1)) as [Hrow | Hrow];
    cbn [andb]; [| right; eexists; split; [reflexivity | simpl; auto 10]].
  destruct (dr =? _); [| right; eexists; split; [reflexivity | simpl; auto 10]].
  rewrite board_get_wf.
  - cbn [obind]. destruct (occupied _);
      [right; eexists; split; [reflexivity | simpl; auto 10] |].
    cbn [obind]. destruct (occupied _);
      [right; eexists; split; [reflexivity | simpl; auto 10] | auto].
  - exact Hwf.
  - destruct Hfr as [_ Hc]. unfold in_bounds. cbn [fst snd].
    destruct (color_eqb (piece_color piece) white); lia.
Qed.

Lemma validate_piece_move_outcome (self : ChessGame) (piece : Piece) (fr to : Index)
    (capture : bool) (promotion : option string) :
  wf_board (board self) -> in_bounds fr -> in_bounds to ->
  _validate_piece_move self piece fr to capture promotion = Return tt \/
  exists why,
    _validate_piece_move self piece fr to capture promotion = illegal why /\
    In why [IllegalKnight; IllegalBishop; IllegalRook; IllegalQueen; IllegalKing;
            PromotionNotAllowed; IllegalPawnCapture; IllegalPawnMoveStraight;
            PawnBlocked; IllegalPawnMove; PathBlocked].
Proof.
  intros Hwf Hfr Hto.
  assert (Hpath : aligned fr to -> fr <> to ->
            _require_clear_path self fr to = Return tt \/
            exists why,
              _require_clear_path self fr to = illegal why /\
              In why [IllegalKnight; IllegalBishop; IllegalRook; IllegalQueen;
                      IllegalKing; PromotionNotAllowed; IllegalPawnCapture;
                      IllegalPawnMoveStraight; PawnBlocked; IllegalPawnMove;
                      PathBlocked]).
  { intros Hal Hne.
    destruct (require_clear_path_outcome self fr to Hwf Hfr Hto Hne Hal)
      as [(_ & -> & _) | (_ & ->)]; [auto |].
    right. eexists. split; [reflexivity | simpl; auto 20]. }
  unfold _validate_piece_move. destruct (piece_type piece).
  - destruct (validate_pawn_move_outcome self piece fr to (fst to - fst fr)
                (snd to - snd fr) capture promotion Hwf Hfr Hto)
      as [-> | (why & -> & Hin)]; [auto |].
    right. exists why. split; [reflexivity |]. simpl in Hin |- *. tauto.
  - ztests; try (right; eexists; split; [reflexivity | simpl; auto 20]; fail);
      apply Hpath; unfold aligned; try lia; intros ->; lia.
  - destruct (negb _); [right; eexists; split; [reflexivity | simpl; auto 20] | auto].
  - ztests; try (right; eexists; split; [reflexivity | simpl; auto 20]; fail);
      apply Hpath; unfold aligned; try lia; intros ->; lia.
  - ztests; try (right; eexists; split; [reflexivity | simpl; auto 20]; fail);
      apply Hpath; unfold aligned; try lia; intros ->; lia.
  - destruct (negb _); [right; eexists; split; [reflexivity | simpl; auto 20] | auto].
Qed.

Lemma apply_move_inv_wf (self : ChessGame) (from_sq to_sq : string) :
  wf_board (board self) ->
  (exists why,
      In why [GameNotInProgress; SameSquare; SquareForm; FileRange; RankRange;
              EmptySource from_sq; WrongTurn (current_turn self); FriendlyCapture] /\
      (why = GameNotInProgress -> game_status self <> "in_progress"%string) /\
      forall promotion,
        apply_move from_sq to_sq promotion self = (self, illegal why))
  \/
  (exists fr to piece,
      game_status self = "in_progress"%string /\
      from_sq <> to_sq /\
      algebraic_to_index from_sq = Return fr /\
      algebraic_to_index to_sq = Return to /\
      in_bounds fr /\ in_bounds to /\ fr <> to /\
      cell_at (board self) fr = Some piece /\
      piece_color piece = current_turn self /\
      own_piece (cell_at (board self) to) piece = false /\
      forall promotion,
        apply_move from_sq to_sq promotion self =
        validate_then_execute self piece fr to (cell_at (board self) to)
                              promotion from_sq to_sq).
Proof.
  intros Hwf.
  destruct (String.eqb (game_status self) "in_progress") eqn:Hst.
  2:{ left. exists GameNotInProgress. split; [simpl; auto |].
      split; [intros _; apply String.eqb_neq; exact Hst |].
      intros promotion. open_apply_move. step Hst. reflexivity. }
  destruct (String.eqb from_sq to_sq) eqn:Hne.
  { left. exists SameSquare. split; [simpl; auto |]. split; [discriminate |].
    intros promotion. open_apply_move. step Hst. step Hne. reflexivity. }
  destruct (algebraic_to_index_error from_sq) as [[fr Hfr] | (why & Hfr & Hin)].
  2:{ left. exists why. split; [simpl in Hin |- *; tauto |].
      split; [intros ->; simpl in Hin; intuition discriminate |].
      intros promotion. open_apply_move. step Hst. step Hne. step Hfr. reflexivity. }
  destruct (algebraic_to_index_error to_sq) as [[to Hto] | (why & Hto & Hin)].
  2:{ left. exists why. split; [simpl in Hin |- *; tauto |].
      split; [intros ->; simpl in Hin; intuition discriminate |].
      intros promotion. open_apply_move. step Hst. step Hne. step Hfr. step Hto.
      reflexivity. }
  pose proof (algebraic_to_index_in_bounds _ _ Hfr) as Hbfr.
  pose proof (algebraic_to_index_in_bounds _ _ Hto) as Hbto.
  pose proof (board_get_wf _ _ Hwf Hbfr) as Hsrc.
  pose proof (board_get_wf _ _ Hwf Hbto) as Htgt.
  destruct (cell_at (board self) fr) as [piece |] eqn:Hcell.
  2:{ left. exists (EmptySource from_sq). split; [simpl; auto 10 |].
      split; [discriminate |].
      intros promotion. open_apply_move. step Hst. step Hne. step Hfr. step Hto.
      step Hsrc. reflexivity. }
  destruct (color_eqb (piece_color piece) (current_turn self)) eqn:Hturn.
  2:{ left. exists (WrongTurn (current_turn self)). split; [simpl; auto 10 |].
      split; [discriminate |].
      intros promotion. open_apply_move. step Hst. step Hne. step Hfr. step Hto.
      step Hsrc. step Hturn. reflexivity. }
  destruct (own_piece (cell_at (board self) to) piece) eqn:Hown.
  { left. exists FriendlyCapture. split; [simpl; auto 10 |]. split; [discriminate |].
    intros promotion. open_apply_move. step Hst. step Hne. step Hfr. step Hto.
    step Hsrc. step Hturn. step Htgt. step Hown. reflexivity. }
  right. exists fr, to, piece.
  apply String.eqb_eq in Hst. apply String.eqb_neq in Hne.
  assert (Hcol : piece_color piece = current_turn self).
  { destruct (piece_color piece), (current_turn self); simpl in Hturn; congruence. }
  pose proof (checked_distinct _ _ _ _ _ Hsrc Htgt Hown) as Hdist.
  repeat (split; [assumption |]).
  intros promotion. apply apply_move_checked; assumption.
Qed.

(** X5: in every reachable state a call of [apply_move] either returns a
    record or raises [IllegalMoveError] with one of nineteen reasons; it
    never raises the not-in-progress error, [IndexError] or [KeyError], and
    the loop of the path check always ends. *)
Theorem apply_move_raises_rule_errors_only (self : ChessGame) (from_sq to_sq : string)
    (promotion : option string) :
  reachable self ->
  (exists record, snd (apply_move from_sq to_sq promotion self) = Return record) \/
  (exists why,
      snd (apply_move from_sq to_sq promotion self) = illegal why /\
      In why [SameSquare; SquareForm; FileRange; RankRange; EmptySource from_sq;
              WrongTurn (current_turn self); FriendlyCapture;
              IllegalKnight; IllegalBishop; IllegalRook; IllegalQueen; IllegalKing;
              PromotionNotAllowed; IllegalPawnCapture; IllegalPawnMoveStraight;
              PawnBlocked; IllegalPawnMove; PathBlocked; InvalidPromotion]).
Proof.
  intros Hreach.
  pose proof (reachable_wf self Hreach) as Hwf.
  pose proof (reachable_in_progress self Hreach) as Hst.
  destruct (apply_move_inv_wf self from_sq to_sq Hwf)
    as [(why & Hin & Hnot & Hall)
       | (fr & to & piece & _ & _ & _ & _ & Hbfr & Hbto & Hdist & _ & _ & _ & Hall)];
    rewrite Hall.
  - right. exists why. split; [reflexivity |].
    simpl in Hin. destruct Hin as [<- | Hin].
    + destruct (Hnot eq_refl Hst).
    + simpl. tauto.
  - unfold validate_then_execute.
    destruct (validate_piece_move_outcome self piece fr to
                (occupied (cell_at (board self) to)) promotion Hwf Hbfr Hbto)
      as [-> | (why & -> & Hin)].
    + pose proof (execute_move_spec piece fr to (occupied (cell_at (board self) to))
                    promotion from_sq to_sq self Hwf Hbfr Hbto Hdist) as Hexec.
      cbv zeta in Hexec.
      destruct (is_pawn piece && last_rank to
                && negb (valid_code (resolved_code promotion))).
      * destruct Hexec as (b' & _ & ->). right. exists InvalidPromotion.
        split; [reflexivity | simpl; auto 25].
      * destruct Hexec as (b' & placed & rec & _ & _ & _ & ->). left. eauto.
    + right. exists why. split; [reflexivity |]. simpl in Hin |- *. tauto.
Qed.

Lemma apply_move_raises_rule_errors_only_witness :
  (exists record, snd (apply_move "e2" "e5" None new_game) = Return record) \/
  (exists why,
      snd (apply_move "e2" "e5" None new_game) = illegal why /\
      In why [SameSquare; SquareForm; FileRange; RankRange; EmptySource "e2";
              WrongTurn (current_turn new_game); FriendlyCapture;
              IllegalKnight; IllegalBishop; IllegalRook; IllegalQueen; IllegalKing;
              PromotionNotAllowed; IllegalPawnCapture; IllegalPawnMoveStraight;
              PawnBlocked; IllegalPawnMove; PathBlocked; InvalidPromotion]).
Proof.
  apply (apply_move_raises_rule_errors_only new_game "e2" "e5" None).
  exact reach_new.
Defined.

(** X6: a rejected call and the state.  On a well-formed board a call that
    raises anything but the invalid-promotion error leaves the whole object
    as it was; the invalid-promotion error is raised only for a pawn landing
    on row 0 or 7 with a code outside q, r, b, n, and then turn, status and
    history are as before while the pawn has already been moved on the
    board. *)
Theorem rejected_move_state (self self' : ChessGame) (from_sq to_sq : string)
    (promotion : option string) (e : exn) :
  wf_board (board self) ->
  apply_move from_sq to_sq promotion self = (self', Raise e) ->
  (e <> IllegalMoveError InvalidPromotion -> self' = self) /\
  (e = IllegalMoveError InvalidPromotion ->
   current_turn self' = current_turn self /\
   game_status self' = game_status self /\
   history self' = history self /\
   exists fr to piece,
     piece_type piece = pawn /\ (fst to = 0 \/ fst to = 7) /\
     valid_code (resolved_code promotion) = false /\
     cell_at (board self) fr = Some piece /\
     moved (board self) (board self') fr to piece).
Proof.
  intros Hwf Hrun. split.
  - intros Hne.
    destruct (apply_move_failure self self' from_sq to_sq promotion e Hwf Hrun)
      as [-> | [-> _]]; [reflexivity | contradiction].
  - intros ->.
    destruct (apply_move_inv_wf self from_sq to_sq Hwf)
      as [(why & Hin & _ & Hall)
         | (fr & to & piece & _ & _ & _ & _ & Hbfr & Hbto & Hdist & Hsrc & _ & _ & Hall)];
      rewrite Hall in Hrun.
    { injection Hrun as _ ->. simpl in Hin. intuition discriminate. }
    unfold validate_then_execute in Hrun.
    destruct (validate_piece_move_outcome self piece fr to
                (occupied (cell_at (board self) to)) promotion Hwf Hbfr Hbto)
      as [Hval | (why & Hval & Hin)]; rewrite Hval in Hrun.
    2:{ injection Hrun as _ ->. simpl in Hin. intuition discriminate. }
    pose proof (execute_move_spec piece fr to (occupied (cell_at (board self) to))
                  promotion from_sq to_sq self Hwf Hbfr Hbto Hdist) as Hexec.
    cbv zeta in Hexec.
    destruct (is_pawn piece && last_rank to) eqn:Hp; cbn [andb] in Hexec.
    + destruct (valid_code (resolved_code promotion)) eqn:Hv; cbn [negb] in Hexec.
      * destruct Hexec as (b' & placed & rec & _ & _ & _ & Hexec).
        rewrite Hexec in Hrun. discriminate.
      * destruct Hexec as (b' & Hmoved & Hexec).
        rewrite Hexec in Hrun. injection Hrun as <-.
        cbn [current_turn game_status history board].
        repeat (split; [reflexivity |]).
        exists fr, to, piece. apply andb_prop in Hp as [Hpawn Hlast].
        split; [unfold is_pawn in Hpawn; destruct (piece_type piece);
                try discriminate; reflexivity |].
        split; [unfold last_rank in Hlast; apply orb_prop in Hlast;
                destruct Hlast as [H | H]; apply Z.eqb_eq in H; auto |].
        auto.
    + destruct Hexec as (b' & placed & rec & _ & _ & _ & Hexec).
      rewrite Hexec in Hrun. discriminate.
Qed.

Lemma rejected_move_state_witness :
  (IllegalMoveError IllegalPawnMove <> IllegalMoveError InvalidPromotion ->
   new_game = new_game) /\
  (IllegalMoveError IllegalPawnMove = IllegalMoveError InvalidPromotion ->
   current_turn new_game = current_turn new_game /\
   game_status new_game = game_status new_game /\
   history new_game = history new_game /\
   exists fr to piece,
     piece_type piece = pawn /\ (fst to = 0 \/ fst to = 7) /\
     valid_code (resolved_code None) = false /\
     cell_at (board new_game) fr = Some piece /\
     moved (board new_game) (board new_game) fr to piece).
Proof.
  apply (rejected_move_state new_game new_game "e2" "e5" None
           (IllegalMoveError IllegalPawnMove)).
  - vm_compute. split; [reflexivity | repeat constructor].
  - vm_compute. reflexivity.
Defined.

(** ** Invariants of the reachable states *)

Lemma new_game_fields :
  new_game = mkChessGame standard_board white "in_progress" [].
Proof. vm_compute. reflexivity. Qed.

Lemma side_after_succ (n : nat) : side_after (S n) = other_color (side_after n).
Proof.
  unfold side_after. rewrite Nat.even_succ, <- Nat.negb_even.
  destruct (Nat.even n); reflexivity.
Qed.

(** X7: the move log and the turn.  In every reachable state it is white's
    turn exactly when the history has an even number of records, and the
    record at position i (from 0) was played by white for even i and by
    black for odd i and carries the move number i // 2 + 1, so that the
    numbers run 1, 1, 2, 2, 3, 3, ... *)
Theorem history_numbering (self : ChessGame) :
  reachable self ->
  current_turn self = side_after (length (history self)) /\
  forall (i : nat) (record : MoveRecord),
    history self !! i = Some record ->
    moveNumber record = Z.of_nat i / 2 + 1 /\ move_color record = side_after i.
Proof.
  induction 1 as [| self _ _ | self from_sq to_sq promotion Hreach [IHturn IHlog]].
  - rewrite new_game_fields. cbn [history current_turn].
    split; [reflexivity |]. intros i record H. rewrite lookup_nil in H. discriminate.
  - rewrite restart_result. cbn [fst history current_turn].
    split; [reflexivity |]. intros i record H. rewrite lookup_nil in H. discriminate.
  - pose proof (reachable_wf self Hreach) as Hwf.
    destruct (apply_move from_sq to_sq promotion self) as [self' [record | e |]] eqn:Hrun;
      cbn [fst].
    + destruct (apply_move_returns self self' from_sq to_sq promotion record Hwf Hrun)
        as (fr & to & piece & placed & _ & _ & _ & _ & _ & _ & _ & _ & _ & _ & _
            & Hrec & Hhist & Hnext & _).
      rewrite Hhist, Hnext, length_app. cbn [length].
      rewrite Nat.add_1_r, side_after_succ, IHturn. split; [reflexivity |].
      intros i r Hi. apply lookup_snoc_Some in Hi as [[_ Hi] | [-> <-]].
      * apply IHlog. exact Hi.
      * subst record. cbn [moveNumber move_color]. auto.
    + destruct (apply_move_failure self self' from_sq to_sq promotion e Hwf Hrun)
        as [-> | (_ & _ & _ & _ & _ & _ & _ & _ & Hturn & _ & Hhist)].
      * split; assumption.
      * rewrite Hturn, Hhist. split; assumption.
    + pose proof (apply_move_ends self from_sq to_sq promotion Hwf) as Hends.
      rewrite Hrun in Hends. contradiction.
Qed.

Lemma history_numbering_witness :
  current_turn pawn_on_a7 = side_after (length (history pawn_on_a7)) /\
  forall (i : nat) (record : MoveRecord),
    history pawn_on_a7 !! i = Some record ->
    moveNumber record = Z.of_nat i / 2 + 1 /\ move_color record = side_after i.
Proof.
  apply (history_numbering pawn_on_a7).
  apply play_reachable, reach_new.
Defined.

(** ** Counting the pieces *)

Lemma range_In (n : nat) (x : Z) : In x (range n) <-> 0 <= x < Z.of_nat n.
Proof.
  unfold range. rewrite List.in_map_iff. split.
  - intros (k & <- & Hk). apply List.in_seq in Hk. lia.
  - intros H. exists (Z.to_nat x). split; [lia |]. apply List.in_seq. lia.
Qed.

Lemma all_cells_In (idx : Index) : In idx all_cells <-> in_bounds idx.
Proof.
  unfold all_cells, in_bounds. rewrite List.in_flat_map. split.
  - intros (row & Hrow & Hin). apply List.in_map_iff in Hin as (col & <- & Hcol).
    apply range_In in Hrow, Hcol. cbn [fst snd]. lia.
  - intros [Hr Hc]. exists (fst idx). split; [apply range_In; lia |].
    apply List.in_map_iff. exists (snd idx).
    split; [destruct idx; reflexivity | apply range_In; lia].
Qed.

Lemma all_cells_nodup : List.NoDup all_cells.
Proof.
  vm_compute.
  repeat (constructor;
          [cbn [In]; intros H;
           repeat (destruct H as [H | H]; [discriminate H |]); exact H |]).
  constructor.
Qed.

Lemma sum_ext (h h' : Index -> Z) (l : list Index) :
  (forall idx, In idx l -> h' idx = h idx) ->
  fold_right (fun idx n => h' idx + n) 0 l = fold_right (fun idx n => h idx + n) 0 l.
Proof.
  induction l as [| x l IH]; intros Hext; [reflexivity |].
  cbn [fold_right]. rewrite Hext by (left; reflexivity).
  rewrite IH; [reflexivity |]. intros idx Hin. apply Hext. right. exact Hin.
Qed.

Lemma sum_override (h : Index -> Z) (a : Index) (v : Z) (l : list Index) :
  List.NoDup l ->
  fold_right (fun idx n => (if index_eqb idx a then v else h idx) + n) 0 l =
  fold_right (fun idx n => h idx + n) 0 l
  + (if existsb (fun idx => index_eqb idx a) l then v - h a else 0).
Proof.
  induction 1 as [| x l Hnotin Hnodup IH]; [reflexivity |].
  cbn [fold_right existsb]. rewrite IH.
  destruct (index_eqb x a) eqn:Hx; cbn [orb].
  - apply index_eqb_eq in Hx. subst x.
    replace (existsb (fun idx => index_eqb idx a) l) with false; [lia |].
    symmetry. apply not_true_is_false. intros Hex.
    apply existsb_exists in Hex as (y & Hin & Hy).
    apply index_eqb_eq in Hy. subst y. contradiction.
  - lia.
Qed.

Lemma sum_override_cells (h : Index -> Z) (a : Index) (v : Z) :
  in_bounds a ->
  fold_right (fun idx n => (if index_eqb idx a then v else h idx) + n) 0 all_cells =
  fold_right (fun idx n => h idx + n) 0 all_cells + v - h a.
Proof.
  intros Ha. rewrite sum_override by exact all_cells_nodup.
  replace (existsb (fun idx => index_eqb idx a) all_cells) with true; [lia |].
  symmetry. apply existsb_exists. exists a.
  split; [apply all_cells_In; exact Ha | apply index_eqb_eq; reflexivity].
Qed.

Lemma moved_pieces (b b' : Board) (fr to : Index) (placed piece : Piece) :
  moved b b' fr to placed -> in_bounds fr -> in_bounds to -> fr <> to ->
  cell_at b fr = Some piece ->
  pieces_on b' = pieces_on b - (if occupied (cell_at b to) then 1 else 0).
Proof.
  intros [_ Hcells] Hfr Hto Hne Hsrc. unfold pieces_on.
  set (h := fun idx => if occupied (cell_at b idx) then 1 else 0).
  set (g := fun idx => if index_eqb idx fr then 0 else h idx).
  rewrite (sum_ext (fun idx => if index_eqb idx to then 1 else g idx)
             (fun idx => if occupied (cell_at b' idx) then 1 else 0)).
  2:{ intros idx Hin. apply all_cells_In in Hin. rewrite Hcells by exact Hin.
      unfold g, h. destruct (index_eqb idx to); [reflexivity |].
      destruct (index_eqb idx fr); reflexivity. }
  rewrite sum_override_cells by exact Hto.
  unfold g at 1. rewrite sum_override_cells by exact Hfr.
  unfold g, h. rewrite Hsrc. rewrite (proj2 (index_eqb_neq to fr)) by congruence.
  cbn [occupied]. fold h. lia.
Qed.

Lemma wf_board_concat (b : Board) :
  wf_board b -> concat b = map (cell_at b) all_cells.
Proof.
  intros [Hlen Hrows].
  explode_list b Hlen.
  repeat match goal with
    | H : Forall _ (_ :: _) |- _ => inversion H; subst; clear H
    | H : Forall _ [] |- _ => clear H
    end.
  repeat match goal with
    | H : length ?row = 8%nat |- _ => explode_list row H; clear H
    end.
  reflexivity.
Qed.

Lemma count_pieces_cells (b : Board) :
  wf_board b -> Z.of_nat (count_pieces b) = pieces_on b.
Proof.
  intros Hwf. unfold count_pieces, pieces_on.
  rewrite (wf_board_concat b Hwf).
  induction all_cells as [| idx l IH]; [reflexivity |].
  cbn [map List.filter fold_right].
  destruct (occupied (cell_at b idx)); cbn [length]; lia.
Qed.

(** X8: an accepted move keeps the number of pieces on the board, except
    that a capture removes exactly one; promotion replaces the pawn and adds
    nothing. *)
Theorem capture_removes_one_piece (self self' : ChessGame) (from_sq to_sq : string)
    (promotion : option string) (record : MoveRecord) :
  wf_board (board self) ->
  apply_move from_sq to_sq promotion self = (self', Return record) ->
  Z.of_nat (count_pieces (board self')) =
  Z.of_nat (count_pieces (board self)) - (if move_capture record then 1 else 0).
Proof.
  intros Hwf Hrun.
  destruct (apply_move_returns self self' from_sq to_sq promotion record Hwf Hrun)
    as (fr & to & piece & placed & _ & _ & Hbfr & Hbto & Hne & Hsrc & _ & _ & _
        & Hmoved & _ & Hrec & _).
  rewrite (count_pieces_cells _ Hwf), (count_pieces_cells _ (proj1 Hmoved)).
  rewrite (moved_pieces _ _ _ _ _ _ Hmoved Hbfr Hbto Hne Hsrc).
  subst record. reflexivity.
Qed.

Lemma capture_removes_one_piece_witness :
  Z.of_nat (count_pieces (board (fst (apply_move "a7" "b8" None pawn_on_a7)))) =
  Z.of_nat (count_pieces (board pawn_on_a7))
  - (if move_capture
          (mkMoveRecord 5 white "a7" "b8" true (Some "q"%string) (mkPiece pawn white))
     then 1 else 0).
Proof.
  apply (capture_removes_one_piece pawn_on_a7
           (fst (apply_move "a7" "b8" None pawn_on_a7)) "a7" "b8" None).
  - vm_compute. split; [reflexivity | repeat constructor].
  - vm_compute. reflexivity.
Defined.

Lemma apply_move_pieces (self : ChessGame) (from_sq to_sq : string)
    (promotion : option string) :
  wf_board (board self) ->
  pieces_on (board (fst (apply_move from_sq to_sq promotion self))) <=
  pieces_on (board self).
Proof.
  intros Hwf.
  destruct (apply_move from_sq to_sq promotion self) as [self' [record | e |]] eqn:Hrun;
    cbn [fst].
  - destruct (apply_move_returns self self' from_sq to_sq promotion record Hwf Hrun)
      as (fr & to & piece & placed & _ & _ & Hbfr & Hbto & Hne & Hsrc & _ & _ & _
          & Hmoved & _).
    rewrite (moved_pieces _ _ _ _ _ _ Hmoved Hbfr Hbto Hne Hsrc).
    destruct (occupied _); lia.
  - destruct (apply_move_inv_wf self from_sq to_sq Hwf)
      as [(why & _ & _ & Hall)
         | (fr & to & piece & _ & _ & _ & _ & Hbfr & Hbto & Hdist & Hsrc & _ & _ & Hall)];
      rewrite Hall in Hrun.
    { injection Hrun as <- _. lia. }
    unfold validate_then_execute in Hrun.
    destruct (_validate_piece_move self piece fr to
                (occupied (cell_at (board self) to)) promotion) as [[] | e' |].
    2:{ injection Hrun as <- _. lia. }
    2:{ discriminate. }
    pose proof (execute_move_spec piece fr to (occupied (cell_at (board self) to))
                  promotion from_sq to_sq self Hwf Hbfr Hbto Hdist) as Hexec.
    cbv zeta in Hexec.
    destruct (is_pawn piece && last_rank to
              && negb (valid_code (resolved_code promotion))).
    + destruct Hexec as (b' & Hmoved & Hexec). rewrite Hexec in Hrun.
      injection Hrun as <- _. cbn [board].
      rewrite (moved_pieces _ _ _ _ _ _ Hmoved Hbfr Hbto Hdist Hsrc).
      destruct (occupied _); lia.
    + destruct Hexec as (b' & placed & rec & _ & _ & _ & Hexec).
      rewrite Hexec in Hrun. discriminate.
  - pose proof (apply_move_ends self from_sq to_sq promotion Hwf) as Hends.
    rewrite Hrun in Hends. contradiction.
Qed.

(** X9: every reachable state has a board of 8 rows of 8 cells, the status
    in_progress, and at most 32 pieces. *)
Theorem reachable_shape (self : ChessGame) :
  reachable self ->
  wf_board (board self) /\
  game_status self = "in_progress"%string /\
  (count_pieces (board self) <= 32)%nat.
Proof.
  intros Hreach.
  pose proof (reachable_wf self Hreach) as Hwf.
  split; [exact Hwf |]. split; [apply reachable_in_progress; exact Hreach |].
  assert (Hcount : pieces_on (board self) <= 32).
  { clear Hwf. induction Hreach as [| self _ _ | self from_sq to_sq promotion Hreach IH].
    - rewrite new_game_fields. vm_compute. discriminate.
    - rewrite restart_result. vm_compute. discriminate.
    - pose proof (apply_move_pieces self from_sq to_sq promotion
                    (reachable_wf self Hreach)).
      lia. }
  rewrite <- count_pieces_cells in Hcount by exact Hwf. lia.
Qed.

Lemma reachable_shape_witness :
  wf_board (board pawn_on_e4) /\
  game_status pawn_on_e4 = "in_progress"%string /\
  (count_pieces (board pawn_on_e4) <= 32)%nat.
Proof.
  apply (reachable_shape pawn_on_e4). apply play_reachable, reach_new.
Defined.

(** ** The state projection *)

Lemma for_fold_append {A B : Type} (l : list A)
    (body : A -> list B -> outcome (list B)) (f : A -> list B) :
  (forall x acc, In x l -> body x acc = Return (acc ++ f x)) ->
  forall acc, for_fold l body acc = Return (acc ++ flat_map f l).
Proof.
  induction l as [| x l IH]; intros Hbody acc; cbn [for_fold flat_map].
  - rewrite app_nil_r. reflexivity.
  - rewrite Hbody by (left; reflexivity). cbn [obind].
    rewrite IH by (intros y a Hin; apply Hbody; right; exact Hin).
    rewrite <- app_assoc. reflexivity.
Qed.

Lemma flat_map_grid {B : Type} (f : Index -> list B) (rows cols : list Z) :
  flat_map f (flat_map (fun row => map (fun col => (row, col)) cols) rows) =
  flat_map (fun row => flat_map (fun col => f (row, col)) cols) rows.
Proof.
  induction rows as [| row rows IH]; [reflexivity |].
  cbn [flat_map]. rewrite List.flat_map_app. f_equal; [| exact IH].
  clear IH. induction cols as [| col cols IHc]; [reflexivity |].
  cbn [map flat_map]. f_equal. exact IHc.
Qed.

Lemma flat_map_all_cells {B : Type} (f : Index -> list B) :
  flat_map f all_cells =
  flat_map (fun row => flat_map (fun col => f (row, col)) (range 8)) (range 8).
Proof. apply flat_map_grid. Qed.

Lemma board_to_response_listing (self : ChessGame) :
  wf_board (board self) ->
  _board_to_response self = Return (flat_map (listed (board self)) all_cells).
Proof.
  intros Hwf. unfold _board_to_response.
  rewrite flat_map_all_cells.
  rewrite (for_fold_append (range 8) _
             (fun row => flat_map (fun col => listed (board self) (row, col)) (range 8)));
    [reflexivity |].
  intros row acc Hrow.
  apply for_fold_append. intros col items Hcol.
  apply range_In in Hrow, Hcol.
  assert (Hin : in_bounds (row, col)) by (unfold in_bounds; cbn [fst snd]; lia).
  rewrite (board_get_wf _ _ Hwf Hin). cbn [obind]. unfold listed.
  destruct (cell_at (board self) (row, col)) as [p |].
  - rewrite (index_to_algebraic_in_bounds _ Hin). reflexivity.
  - rewrite app_nil_r. reflexivity.
Qed.

Lemma Piece_to_dict_inj (p q : Piece) : Piece_to_dict p = Piece_to_dict q -> p = q.
Proof.
  destruct p as [[] []], q as [[] []]; intros H; try reflexivity;
    vm_compute in H; discriminate H.
Qed.

Lemma listed_length (b : Board) (l : list Index) :
  Z.of_nat (length (flat_map (listed b) l)) =
  fold_right (fun idx n => (if occupied (cell_at b idx) then 1 else 0) + n) 0 l.
Proof.
  induction l as [| idx l IH]; [reflexivity |].
  cbn [flat_map fold_right]. rewrite length_app, Nat2Z.inj_add, IH.
  unfold listed. destruct (cell_at b idx); cbn [occupied length]; lia.
Qed.

(** X10: the board part of [get_state].  On a well-formed board
    [_board_to_response] returns, and [get_state] wraps its result with the
    turn and the status; the listing has one item per piece on the board;
    an item for square name sq and piece p is in the listing exactly when
    sq is the lower-case name of a cell that holds p, so that parsing the
    position of an item leads back to a cell holding its piece. *)
Theorem state_listing (self : ChessGame) :
  wf_board (board self) ->
  exists listing,
    _board_to_response self = Return listing /\
    get_state self =
      Return (VDict [("board", VList listing);
                     ("current_turn", VStr (color_name (current_turn self)));
                     ("game_status", VStr (game_status self))]%string) /\
    length listing = count_pieces (board self) /\
    (forall item, In item listing -> exists sq p, item = board_item sq p) /\
    (forall sq p,
        In (board_item sq p) listing <->
        exists idx, in_bounds idx /\ square_name idx = sq /\
                    cell_at (board self) idx = Some p) /\
    (forall sq p,
        In (board_item sq p) listing ->
        exists idx, algebraic_to_index sq = Return idx /\
                    board_get (board self) idx = Return (Some p)).
Proof.
  intros Hwf.
  pose proof (board_to_response_listing self Hwf) as Hlist.
  exists (flat_map (listed (board self)) all_cells).
  assert (Hiff : forall sq p,
             In (board_item sq p) (flat_map (listed (board self)) all_cells) <->
             exists idx, in_bounds idx /\ square_name idx = sq /\
                         cell_at (board self) idx = Some p).
  { intros sq p. rewrite List.in_flat_map. split.
    - intros (idx & Hidx & Hin). apply all_cells_In in Hidx.
      exists idx. split; [exact Hidx |]. unfold listed in Hin.
      destruct (cell_at (board self) idx) as [q |]; [| destruct Hin].
      destruct Hin as [Heq | []]. unfold board_item in Heq.
      injection Heq as Hs Hty Hcol.
      assert (Hp : q = p).
      { destruct p as [[] []], q as [[] []]; cbn in Hty, Hcol;
          solve [reflexivity | discriminate Hty | discriminate Hcol]. }
      subst. auto.
    - intros (idx & Hidx & <- & Hcell). exists idx.
      split; [apply all_cells_In; exact Hidx |].
      unfold listed. rewrite Hcell. left. reflexivity. }
  split; [exact Hlist |].
  split; [unfold get_state; rewrite Hlist; reflexivity |].
  split; [| split; [| split; [exact Hiff |]]].
  - apply Nat2Z.inj. rewrite listed_length.
    rewrite (count_pieces_cells _ Hwf). reflexivity.
  - intros item Hin. apply List.in_flat_map in Hin as (idx & _ & Hin).
    unfold listed in Hin. destruct (cell_at (board self) idx) as [q |];
      [| destruct Hin].
    destruct Hin as [<- | []]. eauto.
  - intros sq p Hin. apply Hiff in Hin as (idx & Hidx & <- & Hcell).
    exists idx. split.
    + pose proof (index_round_trip idx Hidx) as Hrt.
      rewrite index_to_algebraic_in_bounds in Hrt by exact Hidx. exact Hrt.
    + rewrite (board_get_wf _ _ Hwf Hidx), Hcell. reflexivity.
Qed.

Lemma state_listing_witness :
  exists listing,
    _board_to_response new_game = Return listing /\
    get_state new_game =
      Return (VDict [("board", VList listing);
                     ("current_turn", VStr (color_name (current_turn new_game)));
                     ("game_status", VStr (game_status new_game))]%string) /\
    length listing = count_pieces (board new_game) /\
    (forall item, In item listing -> exists sq p, item = board_item sq p) /\
    (forall sq p,
        In (board_item sq p) listing <->
        exists idx, in_bounds idx /\ square_name idx = sq /\
                    cell_at (board new_game) idx = Some p) /\
    (forall sq p,
        In (board_item sq p) listing ->
        exists idx, algebraic_to_index sq = Return idx /\
                    board_get (board new_game) idx = Return (Some p)).
Proof.
  apply (state_listing new_game).
  vm_compute. split; [reflexivity | repeat constructor].
Defined.

(** ** The history projection and promotion codes *)

(** X11: the history as handed out.  After an accepted move [get_history]
    is the former list followed by the dict of the returned record; that
    dict holds the two input strings under "from" and "to", the capture
    flag, the dict of the piece that moved, and a "promotion" key exactly
    when the record has a promotion code, which is then one of q, r, b, n. *)
Theorem history_projection (self self' : ChessGame) (from_sq to_sq : string)
    (promotion : option string) (record : MoveRecord) :
  wf_board (board self) ->
  apply_move from_sq to_sq promotion self = (self', Return record) ->
  get_history self' = get_history self ++ [MoveRecord_to_dict record] /\
  dict_lookup (dict_items (MoveRecord_to_dict record)) "from" = Some (VStr from_sq) /\
  dict_lookup (dict_items (MoveRecord_to_dict record)) "to" = Some (VStr to_sq) /\
  dict_lookup (dict_items (MoveRecord_to_dict record)) "capture" =
    Some (VBool (move_capture record)) /\
  dict_lookup (dict_items (MoveRecord_to_dict record)) "piece" =
    Some (Piece_to_dict (move_piece record)) /\
  dict_lookup (dict_items (MoveRecord_to_dict record)) "promotion" =
    option_map VStr (move_promotion record) /\
  (forall code, move_promotion record = Some code ->
                In code ["q"; "r"; "b"; "n"]%string).
Proof.
  intros Hwf Hrun.
  destruct (apply_move_returns self self' from_sq to_sq promotion record Hwf Hrun)
    as (fr & to & piece & placed & _ & _ & _ & _ & _ & _ & _ & _ & _ & _ & Hplaced
        & Hrec & Hhist & _).
  split.
  { unfold get_history. rewrite Hhist, List.map_app. reflexivity. }
  subst record. unfold MoveRecord_to_dict.
  cbn [moveNumber move_color from_square to_square move_capture move_piece
       move_promotion].
  destruct (is_pawn piece && last_rank to).
  - destruct Hplaced as (t & Hin & _).
    simpl in Hin.
    destruct Hin as [[= Hc _] | [[= Hc _] | [[= Hc _] | [[= Hc _] | []]]]];
      rewrite <- Hc; cbn;
      repeat (split; [reflexivity |]);
      intros code [= <-]; auto 10.
  - cbn. repeat (split; [reflexivity |]). discriminate.
Qed.

Lemma history_projection_witness :
  get_history (fst (apply_move "a7" "b8" (Some "R"%string) pawn_on_a7)) =
    get_history pawn_on_a7 ++
    [MoveRecord_to_dict
       (mkMoveRecord 5 white "a7" "b8" true (Some "r"%string) (mkPiece pawn white))] /\
  dict_lookup (dict_items (MoveRecord_to_dict
       (mkMoveRecord 5 white "a7" "b8" true (Some "r"%string) (mkPiece pawn white))))
    "from" = Some (VStr "a7") /\
  dict_lookup (dict_items (MoveRecord_to_dict
       (mkMoveRecord 5 white "a7" "b8" true (Some "r"%string) (mkPiece pawn white))))
    "to" = Some (VStr "b8") /\
  dict_lookup (dict_items (MoveRecord_to_dict
       (mkMoveRecord 5 white "a7" "b8" true (Some "r"%string) (mkPiece pawn white))))
    "capture" =
    Some (VBool (move_capture
       (mkMoveRecord 5 white "a7" "b8" true (Some "r"%string) (mkPiece pawn white)))) /\
  dict_lookup (dict_items (MoveRecord_to_dict
       (mkMoveRecord 5 white "a7" "b8" true (Some "r"%string) (mkPiece pawn white))))
    "piece" =
    Some (Piece_to_dict (move_piece
       (mkMoveRecord 5 white "a7" "b8" true (Some "r"%string) (mkPiece pawn white)))) /\
  dict_lookup (dict_items (MoveRecord_to_dict
       (mkMoveRecord 5 white "a7" "b8" true (Some "r"%string) (mkPiece pawn white))))
    "promotion" =
    option_map VStr (move_promotion
       (mkMoveRecord 5 white "a7" "b8" true (Some "r"%string) (mkPiece pawn white))) /\
  (forall code,
      move_promotion
        (mkMoveRecord 5 white "a7" "b8" true (Some "r"%string) (mkPiece pawn white)) =
      Some code ->
      In code ["q"; "r"; "b"; "n"]%string).
Proof.
  apply (history_projection pawn_on_a7
           (fst (apply_move "a7" "b8" (Some "R"%string) pawn_on_a7))
           "a7" "b8" (Some "R"%string)).
  - vm_compute. split; [reflexivity | repeat constructor].
  - vm_compute. reflexivity.
Defined.



(** ** The pawn on the board *)

Lemma pawn_rule_accepts (self : ChessGame) (piece : Piece) (fr to : Index)
    (promotion : option string) :
  wf_board (board self) -> in_bounds fr -> in_bounds to ->
  let d := pawn_direction (piece_color piece) in
  let capture := occupied (cell_at (board self) to) in
  (_validate_pawn_move self piece fr to (fst to - fst fr) (snd to - snd fr)
                       capture promotion = Return tt ->
   (fst to = fst fr + d /\
    ((capture = true /\ Z.abs (snd to - snd fr) = 1) \/
     (capture = false /\ snd to = snd fr)))
   \/
   (fst fr = pawn_start_row (piece_color piece) /\ fst to = fst fr + 2 * d /\
    snd to = snd fr /\ capture = false /\
    cell_at (board self) (fst fr + d, snd fr) = None)) /\
  (_validate_pawn_move self piece fr to (fst to - fst fr) (snd to - snd fr)
                       capture promotion = illegal PawnBlocked ->
   fst fr = pawn_start_row (piece_color piece) /\ fst to = fst fr + 2 * d /\
   snd to = snd fr /\ capture = false /\
   cell_at (board self) (fst fr + d, snd fr) <> None).
Proof.
  intros Hwf Hfr Hto d capture. subst d capture.
  unfold _validate_pawn_move. rewrite (board_get_wf _ _ Hwf Hto).
  destruct (_ && negb _); [split; discriminate |].
  destruct (occupied (cell_at (board self) to)) eqn:Hocc.
  { destruct (piece_color piece); cbn [color_eqb pawn_direction pawn_start_row];
      ztests; unfold illegal;
      (split; [| discriminate]); intros H; try discriminate H;
      left; (split; [lia | left; split; [reflexivity | lia]]). }
  destruct (piece_color piece); cbn [color_eqb pawn_direction pawn_start_row].
  all: unfold illegal; repeat ztest; cbn [negb andb obind]; rewrite ?Hocc.
  all: try (split; discriminate).
  all: try (rewrite board_get_wf
              by (exact Hwf
                  || (destruct Hfr as [_ Hc]; unfold in_bounds; cbn [fst snd]; lia));
            cbn [obind];
            destruct (cell_at (board self) (_, _)) as [q |] eqn:Hmid;
            cbn [occupied obind]; rewrite ?Hocc).
  all: split; intros H; try discriminate H.
  all: try (left; split; [lia | right; split; [reflexivity | lia]]).
  all: try (right; repeat split; first [assumption | lia | reflexivity]).
  all: repeat split; first [assumption | lia | reflexivity | discriminate].
Qed.

(** X13: pawns only go forward.  When the accepted move is a pawn's, the
    pawn has advanced one row in its direction (-1 for white, +1 for
    black), staying on its file if the destination was empty and changing
    file by exactly one if it captured; or it has advanced two rows on its
    file from its start row (6 for white, 1 for black) over an empty
    intermediate cell, without capture.  There is no other pawn move: none
    backward or sideways, no capture straight ahead, none en passant. *)
Theorem pawn_moves_forward (self self' : ChessGame) (from_sq to_sq : string)
    (promotion : option string) (fr to : Index) (piece : Piece)
    (record : MoveRecord) :
  wf_board (board self) ->
  algebraic_to_index from_sq = Return fr ->
  algebraic_to_index to_sq = Return to ->
  board_get (board self) fr = Return (Some piece) ->
  piece_type piece = pawn ->
  apply_move from_sq to_sq promotion self = (self', Return record) ->
  let d := pawn_direction (current_turn self) in
  (fst to = fst fr + d /\
   ((move_capture record = true /\ Z.abs (snd to - snd fr) = 1) \/
    (move_capture record = false /\ snd to = snd fr)))
  \/
  (fst fr = pawn_start_row (current_turn self) /\ fst to = fst fr + 2 * d /\
   snd to = snd fr /\ move_capture record = false /\
   cell_at (board self) (fst fr + d, snd fr) = None).
Proof.
  intros Hwf Hfr Hto Hsrc Hpawn Hrun d. subst d.
  destruct (apply_move_returns self self' from_sq to_sq promotion record Hwf Hrun)
    as (fr' & to' & piece' & placed & Hfr' & Hto' & Hbfr & Hbto & _ & Hsrc' & Hturn
        & _ & Hval & _ & _ & Hrec & _).
  rewrite Hfr in Hfr'. injection Hfr' as <-.
  rewrite Hto in Hto'. injection Hto' as <-.
  rewrite (board_get_wf _ _ Hwf Hbfr), Hsrc' in Hsrc. injection Hsrc as <-.
  unfold _validate_piece_move in Hval. rewrite Hpawn in Hval.
  subst record. cbn [move_capture]. rewrite <- Hturn.
  exact (proj1 (pawn_rule_accepts self piece' fr to promotion Hwf Hbfr Hbto) Hval).
Qed.

Lemma pawn_moves_forward_witness :
  let d := pawn_direction (current_turn pawn_on_a7) in
  (fst (0, 1) = fst (1, 0) + d /\
   ((move_capture
       (mkMoveRecord 5 white "a7" "b8" true (Some "q"%string) (mkPiece pawn white)) =
     true /\ Z.abs (snd (0, 1) - snd (1, 0)) = 1) \/
    (move_capture
       (mkMoveRecord 5 white "a7" "b8" true (Some "q"%string) (mkPiece pawn white)) =
     false /\ snd (0, 1) = snd (1, 0))))
  \/
  (fst (1, 0) = pawn_start_row (current_turn pawn_on_a7) /\
   fst (0, 1) = fst (1, 0) + 2 * d /\
   snd (0, 1) = snd (1, 0) /\
   move_capture
     (mkMoveRecord 5 white "a7" "b8" true (Some "q"%string) (mkPiece pawn white)) =
   false /\
   cell_at (board pawn_on_a7) (fst (1, 0) + d, snd (1, 0)) = None).
Proof.
  apply (pawn_moves_forward pawn_on_a7 (fst (apply_move "a7" "b8" None pawn_on_a7))
           "a7" "b8" None (1, 0) (0, 1) (mkPiece pawn white)).
  - vm_compute. split; [reflexivity | repeat constructor].
  - vm_compute. reflexivity.
  - vm_compute. reflexivity.
  - vm_compute. reflexivity.
  - reflexivity.
  - vm_compute. reflexivity.
Defined.

Lemma non_pawn_never_pawn_blocked (self : ChessGame) (piece : Piece) (fr to : Index)
    (capture : bool) (promotion : option string) :
  piece_type piece <> pawn ->
  _validate_piece_move self piece fr to capture promotion <> illegal PawnBlocked.
Proof.
  intros Hnp. unfold _validate_piece_move, _require_clear_path, clear_path_run.
  destruct (piece_type piece); try congruence;
    repeat match goal with
      | |- context [if ?b then _ else _] => destruct b
      end;
    try discriminate;
    intros H; apply clear_path_loop_error in H as [H | H]; discriminate H.
Qed.

(** X14: the blocked-pawn error.  [apply_move] raises "Pawn move blocked."
    only for a pawn of the side to move that stands on its start row and is
    asked to advance two rows on its file to an empty cell while the cell
    in between is occupied; the state is left as it was.  A single step
    onto an occupied cell never gives this error. *)
Theorem pawn_blocked_means_double_step (self self' : ChessGame)
    (from_sq to_sq : string) (promotion : option string) :
  wf_board (board self) ->
  apply_move from_sq to_sq promotion self = (self', illegal PawnBlocked) ->
  self' = self /\
  exists fr to piece,
    algebraic_to_index from_sq = Return fr /\
    algebraic_to_index to_sq = Return to /\
    cell_at (board self) fr = Some piece /\
    piece_type piece = pawn /\
    piece_color piece = current_turn self /\
    fst fr = pawn_start_row (current_turn self) /\
    fst to = fst fr + 2 * pawn_direction (current_turn self) /\
    snd to = snd fr /\
    cell_at (board self) to = None /\
    cell_at (board self) (fst fr + pawn_direction (current_turn self), snd fr) <> None.
Proof.
  intros Hwf Hrun.
  destruct (apply_move_inv_wf self from_sq to_sq Hwf)
    as [(why & Hin & _ & Hall)
       | (fr & to & piece & _ & _ & Hfr & Hto & Hbfr & Hbto & Hdist & Hsrc & Hturn
          & _ & Hall)];
    rewrite Hall in Hrun.
  { injection Hrun as _ ->. simpl in Hin. intuition discriminate. }
  unfold validate_then_execute in Hrun.
  destruct (_validate_piece_move self piece fr to
              (occupied (cell_at (board self) to)) promotion) as [[] | e |] eqn:Hval.
  - pose proof (execute_move_spec piece fr to (occupied (cell_at (board self) to))
                  promotion from_sq to_sq self Hwf Hbfr Hbto Hdist) as Hexec.
    cbv zeta in Hexec.
    destruct (is_pawn piece && last_rank to
              && negb (valid_code (resolved_code promotion))).
    + destruct Hexec as (b' & _ & Hexec). rewrite Hexec in Hrun. discriminate.
    + destruct Hexec as (b' & placed & rec & _ & _ & _ & Hexec).
      rewrite Hexec in Hrun. discriminate.
  - injection Hrun as <- ->. split; [reflexivity |].
    destruct (piece_type piece) eqn:Hty;
      try (exfalso;
           apply (non_pawn_never_pawn_blocked self piece fr to
                    (occupied (cell_at (board self) to)) promotion);
           [rewrite Hty; discriminate | exact Hval]).
    unfold _validate_piece_move in Hval. rewrite Hty in Hval.
    destruct (proj2 (pawn_rule_accepts self piece fr to promotion Hwf Hbfr Hbto) Hval)
      as (Hrow & Hdr & Hdc & Hocc & Hmid).
    rewrite Hturn in Hrow, Hdr, Hmid.
    exists fr, to, piece.
    repeat (split; [first [assumption | reflexivity] |]).
    split; [| exact Hmid].
    destruct (cell_at (board self) to); [discriminate | reflexivity].
  - discriminate.
Qed.

Lemma pawn_blocked_means_double_step_witness :
  knight_on_f3 = knight_on_f3 /\
  exists fr to piece,
    algebraic_to_index "f2" = Return fr /\
    algebraic_to_index "f4" = Return to /\
    cell_at (board knight_on_f3) fr = Some piece /\
    piece_type piece = pawn /\
    piece_color piece = current_turn knight_on_f3 /\
    fst fr = pawn_start_row (current_turn knight_on_f3) /\
    fst to = fst fr + 2 * pawn_direction (current_turn knight_on_f3) /\
    snd to = snd fr /\
    cell_at (board knight_on_f3) to = None /\
    cell_at (board knight_on_f3)
            (fst fr + pawn_direction (current_turn knight_on_f3), snd fr) <> None.
Proof.
  apply (pawn_blocked_means_double_step knight_on_f3 knight_on_f3 "f2" "f4" None).
  - vm_compute. split; [reflexivity | repeat constructor].
  - vm_compute. reflexivity.
Defined.

(** ** Knight, king and queen *)

Lemma non_pawn_executes (self : ChessGame) (piece : Piece) (fr to : Index)
    (capture : bool) (promotion : option string) (from_sq to_sq : string) :
  wf_board (board self) -> in_bounds fr -> in_bounds to -> fr <> to ->
  piece_type piece <> pawn ->
  exists self' record,
    execute_move piece fr to capture promotion from_sq to_sq self =
    (self', Return record).
Proof.
  intros Hwf Hbfr Hbto Hdist Hnp.
  pose proof (execute_move_spec piece fr to capture promotion from_sq to_sq self
                Hwf Hbfr Hbto Hdist) as Hexec.
  assert (Hp : is_pawn piece = false).
  { unfold is_pawn. destruct (piece_type piece); congruence. }
  cbv zeta in Hexec. rewrite Hp in Hexec. cbn [andb] in Hexec.
  destruct Hexec as (b' & placed & record & _ & _ & _ & ->). eauto.
Qed.

(** X15: knight and king.  Once the checks on status, squares, source, turn
    and target have passed, a knight's move is accepted exactly when
    (|dr|, |dc|) is (1, 2) or (2, 1), and a king's exactly when
    max(|dr|, |dc|) = 1, whatever stands on the other cells of the board;
    otherwise the call fails with the knight's or the king's reason and the
    state is as before. *)
Theorem knight_and_king_moves (self : ChessGame) (from_sq to_sq : string)
    (promotion : option string) (fr to : Index) (piece : Piece)
    (target : option Piece) :
  wf_board (board self) ->
  game_status self = "in_progress"%string ->
  from_sq <> to_sq ->
  algebraic_to_index from_sq = Return fr ->
  algebraic_to_index to_sq = Return to ->
  board_get (board self) fr = Return (Some piece) ->
  piece_color piece = current_turn self ->
  board_get (board self) to = Return target ->
  own_piece target piece = false ->
  (piece_type piece = knight ->
   ((exists self' record,
        apply_move from_sq to_sq promotion self = (self', Return record))
    <-> knight_pattern (fst to - fst fr) (snd to - snd fr)) /\
   (~ knight_pattern (fst to - fst fr) (snd to - snd fr) ->
    apply_move from_sq to_sq promotion self = (self, illegal IllegalKnight))) /\
  (piece_type piece = king ->
   ((exists self' record,
        apply_move from_sq to_sq promotion self = (self', Return record))
    <-> king_pattern (fst to - fst fr) (snd to - snd fr)) /\
   (~ king_pattern (fst to - fst fr) (snd to - snd fr) ->
    apply_move from_sq to_sq promotion self = (self, illegal IllegalKing))).
Proof.
  intros Hwf Hst Hne Hfr Hto Hsrc Hturn Htgt Hown.
  pose proof (algebraic_to_index_in_bounds _ _ Hfr) as Hbfr.
  pose proof (algebraic_to_index_in_bounds _ _ Hto) as Hbto.
  pose proof (checked_distinct _ _ _ _ _ Hsrc Htgt Hown) as Hdist.
  rewrite (apply_move_checked self from_sq to_sq promotion fr to piece target)
    by assumption.
  unfold validate_then_execute, _validate_piece_move.
  split; intros Hty; rewrite Hty.
  - assert (Hnp : piece_type piece <> pawn) by (rewrite Hty; discriminate).
    destruct (non_pawn_executes self piece fr to (occupied target) promotion
                from_sq to_sq Hwf Hbfr Hbto Hdist Hnp) as (s1 & rec & Hexec).
    unfold knight_pattern, index_eqb. cbn [existsb fst snd].
    ztests; rewrite ?Hexec; unfold illegal;
      (split; [split; [intros (? & ? & H); try discriminate H; lia
                      | intros H; try lia; eauto]
              | intros H; try reflexivity; exfalso; apply H; lia]).
  - assert (Hnp : piece_type piece <> pawn) by (rewrite Hty; discriminate).
    destruct (non_pawn_executes self piece fr to (occupied target) promotion
                from_sq to_sq Hwf Hbfr Hbto Hdist Hnp) as (s1 & rec & Hexec).
    unfold king_pattern.
    ztests; rewrite ?Hexec; unfold illegal;
      (split; [split; [intros (? & ? & H); try discriminate H; lia
                      | intros H; try lia; eauto]
              | intros H; try reflexivity; exfalso; apply H; lia]).
Qed.

Lemma knight_and_king_moves_witness :
  (piece_type (mkPiece knight white) = knight ->
   ((exists self' record,
        apply_move "b1" "c3" None new_game = (self', Return record))
    <-> knight_pattern (fst (5, 2) - fst (7, 1)) (snd (5, 2) - snd (7, 1))) /\
   (~ knight_pattern (fst (5, 2) - fst (7, 1)) (snd (5, 2) - snd (7, 1)) ->
    apply_move "b1" "c3" None new_game = (new_game, illegal IllegalKnight))) /\
  (piece_type (mkPiece knight white) = king ->
   ((exists self' record,
        apply_move "b1" "c3" None new_game = (self', Return record))
    <-> king_pattern (fst (5, 2) - fst (7, 1)) (snd (5, 2) - snd (7, 1))) /\
   (~ king_pattern (fst (5, 2) - fst (7, 1)) (snd (5, 2) - snd (7, 1)) ->
    apply_move "b1" "c3" None new_game = (new_game, illegal IllegalKing))).
Proof.
  apply (knight_and_king_moves new_game "b1" "c3" None (7, 1) (5, 2)
           (mkPiece knight white) None).
  - vm_compute. split; [reflexivity | repeat constructor].
  - vm_compute. reflexivity.
  - discriminate.
  - vm_compute. reflexivity.
  - vm_compute. reflexivity.
  - vm_compute. reflexivity.
  - vm_compute. reflexivity.
  - vm_compute. reflexivity.
  - reflexivity.
Defined.

(** X16: the queen's rule is the union of the bishop's and the rook's: on
    any board and for any two cells, a queen's move passes the piece rule
    exactly when the same move would pass it for a bishop or for a rook. *)
Theorem queen_is_bishop_or_rook (self : ChessGame) (c c1 c2 : Color) (fr to : Index)
    (capture : bool) (promotion : option string) :
  _validate_piece_move self (mkPiece queen c) fr to capture promotion = Return tt <->
  (_validate_piece_move self (mkPiece bishop c1) fr to capture promotion = Return tt \/
   _validate_piece_move self (mkPiece rook c2) fr to capture promotion = Return tt).
Proof.
  unfold _validate_piece_move. cbn [piece_type].
  ztests; unfold illegal; intuition discriminate.
Qed.

(** X17: a sliding piece whose displacement does not match its pattern is
    rejected with the reason of its type, once the earlier checks have
    passed, and the state is as before; the board is not looked at. *)
Theorem slider_pattern_required (self : ChessGame) (from_sq to_sq : string)
    (promotion : option string) (fr to : Index) (piece : Piece)
    (target : option Piece) :
  game_status self = "in_progress"%string ->
  from_sq <> to_sq ->
  algebraic_to_index from_sq = Return fr ->
  algebraic_to_index to_sq = Return to ->
  board_get (board self) fr = Return (Some piece) ->
  piece_color piece = current_turn self ->
  board_get (board self) to = Return target ->
  own_piece target piece = false ->
  ~ slider_pattern (piece_type piece) (fst to - fst fr) (snd to - snd fr) ->
  (piece_type piece = bishop ->
   apply_move from_sq to_sq promotion self = (self, illegal IllegalBishop)) /\
  (piece_type piece = rook ->
   apply_move from_sq to_sq promotion self = (self, illegal IllegalRook)) /\
  (piece_type piece = queen ->
   apply_move from_sq to_sq promotion self = (self, illegal IllegalQueen)).
Proof.
  intros Hst Hne Hfr Hto Hsrc Hturn Htgt Hown Hpat.
  rewrite (apply_move_checked self from_sq to_sq promotion fr to piece target)
    by assumption.
  unfold validate_then_execute, _validate_piece_move.
  unfold slider_pattern, bishop_pattern, rook_pattern in Hpat.
  repeat split; intros Hty; rewrite Hty in *;
    ztests; try reflexivity; exfalso; apply Hpat; lia.
Qed.

Lemma slider_pattern_required_witness :
  (piece_type (mkPiece bishop white) = bishop ->
   apply_move "f1" "f3" None open_diagonal = (open_diagonal, illegal IllegalBishop)) /\
  (piece_type (mkPiece bishop white) = rook ->
   apply_move "f1" "f3" None open_diagonal = (open_diagonal, illegal IllegalRook)) /\
  (piece_type (mkPiece bishop white) = queen ->
   apply_move "f1" "f3" None open_diagonal = (open_diagonal, illegal IllegalQueen)).
Proof.
  apply (slider_pattern_required open_diagonal "f1" "f3" None (7, 5) (5, 5)
           (mkPiece bishop white) None).
  - vm_compute. reflexivity.
  - discriminate.
  - vm_compute. reflexivity.
  - vm_compute. reflexivity.
  - vm_compute. reflexivity.
  - vm_compute. reflexivity.
  - vm_compute. reflexivity.
  - reflexivity.
  - vm_compute. intros [H _]. discriminate H.
Defined.

(** ** The order of the checks *)

(** X18: the first failing check decides the error.  In a game in progress,
    for two different input strings: a source string that does not parse
    gives its square error whatever the destination string is; a
    destination string that does not parse gives its square error whatever
    the source cell holds, even when it is empty; then an empty source
    gives the empty-source error, a source piece of the other side the
    wrong-turn error, and a destination holding a piece of the mover's side
    the own-piece error, each before any piece rule is consulted.  The
    state is as before in every case. *)
Theorem check_order (self : ChessGame) (from_sq to_sq : string)
    (promotion : option string) :
  wf_board (board self) ->
  game_status self = "in_progress"%string ->
  from_sq <> to_sq ->
  (forall why,
      algebraic_to_index from_sq = illegal why ->
      apply_move from_sq to_sq promotion self = (self, illegal why)) /\
  (forall fr why,
      algebraic_to_index from_sq = Return fr ->
      algebraic_to_index to_sq = illegal why ->
      apply_move from_sq to_sq promotion self = (self, illegal why)) /\
  (forall fr to,
      algebraic_to_index from_sq = Return fr ->
      algebraic_to_index to_sq = Return to ->
      cell_at (board self) fr = None ->
      apply_move from_sq to_sq promotion self = (self, illegal (EmptySource from_sq))) /\
  (forall fr to piece,
      algebraic_to_index from_sq = Return fr ->
      algebraic_to_index to_sq = Return to ->
      cell_at (board self) fr = Some piece ->
      piece_color piece <> current_turn self ->
      apply_move from_sq to_sq promotion self =
      (self, illegal (WrongTurn (current_turn self)))) /\
  (forall fr to piece victim,
      algebraic_to_index from_sq = Return fr ->
      algebraic_to_index to_sq = Return to ->
      cell_at (board self) fr = Some piece ->
      piece_color piece = current_turn self ->
      cell_at (board self) to = Some victim ->
      piece_color victim = current_turn self ->
      apply_move from_sq to_sq promotion self = (self, illegal FriendlyCapture)).
Proof.
  intros Hwf Hst Hne.
  assert (Hst' : String.eqb (game_status self) "in_progress" = true).
  { rewrite Hst. reflexivity. }
  apply String.eqb_neq in Hne.
  split; [| split; [| split; [| split]]].
  - intros why Hfr. open_apply_move. step Hst'. step Hne. step Hfr. reflexivity.
  - intros fr why Hfr Hto. open_apply_move.
    step Hst'. step Hne. step Hfr. step Hto. reflexivity.
  - intros fr to Hfr Hto Hcell.
    pose proof (algebraic_to_index_in_bounds _ _ Hfr) as Hbfr.
    open_apply_move. step Hst'. step Hne. step Hfr. step Hto.
    step (board_get_wf _ _ Hwf Hbfr). step Hcell. reflexivity.
  - intros fr to piece Hfr Hto Hcell Hcol.
    pose proof (algebraic_to_index_in_bounds _ _ Hfr) as Hbfr.
    assert (Hneq : color_eqb (piece_color piece) (current_turn self) = false).
    { destruct (piece_color piece), (current_turn self); try reflexivity;
        contradiction Hcol; reflexivity. }
    open_apply_move. step Hst'. step Hne. step Hfr. step Hto.
    step (board_get_wf _ _ Hwf Hbfr). step Hcell. step Hneq. reflexivity.
  - intros fr to piece victim Hfr Hto Hcell Hcol Hvictim Hvcol.
    pose proof (algebraic_to_index_in_bounds _ _ Hfr) as Hbfr.
    pose proof (algebraic_to_index_in_bounds _ _ Hto) as Hbto.
    assert (Heq : color_eqb (piece_color piece) (current_turn self) = true).
    { rewrite Hcol. destruct (current_turn self); reflexivity. }
    assert (Hown : own_piece (Some victim) piece = true).
    { simpl. rewrite Hvcol, Hcol. destruct (current_turn self); reflexivity. }
    open_apply_move. step Hst'. step Hne. step Hfr. step Hto.
    step (board_get_wf _ _ Hwf Hbfr). step Hcell. step Heq.
    step (board_get_wf _ _ Hwf Hbto). step Hvictim. step Hown. reflexivity.
Qed.

Lemma check_order_witness :
  (forall why,
      algebraic_to_index "e3" = illegal why ->
      apply_move "e3" "z9" None new_game = (new_game, illegal why)) /\
  (forall fr why,
      algebraic_to_index "e3" = Return fr ->
      algebraic_to_index "z9" = illegal why ->
      apply_move "e3" "z9" None new_game = (new_game, illegal why)) /\
  (forall fr to,
      algebraic_to_index "e3" = Return fr ->
      algebraic_to_index "z9" = Return to ->
      cell_at (board new_game) fr = None ->
      apply_move "e3" "z9" None new_game = (new_game, illegal (EmptySource "e3"))) /\
  (forall fr to piece,
      algebraic_to_index "e3" = Return fr ->
      algebraic_to_index "z9" = Return to ->
      cell_at (board new_game) fr = Some piece ->
      piece_color piece <> current_turn new_game ->
      apply_move "e3" "z9" None new_game =
      (new_game, illegal (WrongTurn (current_turn new_game)))) /\
  (forall fr to piece victim,
      algebraic_to_index "e3" = Return fr ->
      algebraic_to_index "z9" = Return to ->
      cell_at (board new_game) fr = Some piece ->
      piece_color piece = current_turn new_game ->
      cell_at (board new_game) to = Some victim ->
      piece_color victim = current_turn new_game ->
      apply_move "e3" "z9" None new_game = (new_game, illegal FriendlyCapture)).
Proof.
  apply (check_order new_game "e3" "z9" None).
  - vm_compute. split; [reflexivity | repeat constructor].
  - vm_compute. reflexivity.
  - discriminate.
Defined.

(** ** The path check in both directions *)

Lemma between_reverse_In (fr to x : Index) :
  aligned fr to -> In x (between fr to) -> In x (between to fr).
Proof.
  intros Hal Hin. unfold between in *.
  apply List.in_map_iff in Hin as (k & <- & Hk). apply List.in_seq in Hk.
  apply List.in_map_iff.
  destruct fr as [fr_r fr_c], to as [to_r to_c].
  unfold distance, aligned in *. cbn [fst snd] in *.
  exists (Z.to_nat (Z.max (Z.abs (to_r - fr_r)) (Z.abs (to_c - fr_c))) - k)%nat.
  split.
  - destruct (Z.sgn_spec (to_r - fr_r)) as [[Hr Hr'] | [[Hr Hr'] | [Hr Hr']]];
      destruct (Z.sgn_spec (to_c - fr_c)) as [[Hc Hc'] | [[Hc Hc'] | [Hc Hc']]];
      destruct (Z.sgn_spec (fr_r - to_r)) as [[Hs Hs'] | [[Hs Hs'] | [Hs Hs']]];
      destruct (Z.sgn_spec (fr_c - to_c)) as [[Ht Ht'] | [[Ht Ht'] | [Ht Ht']]];
      try lia; rewrite Hr', Hc', Hs', Ht'; f_equal; lia.
  - apply List.in_seq. lia.
Qed.

Lemma aligned_sym (fr to : Index) : aligned fr to -> aligned to fr.
Proof. unfold aligned. lia. Qed.

(** X19: the path check reads the same line from either end: for distinct
    in-bounds cells on one row, column or diagonal of a well-formed board,
    the check from fr to to and the check from to to fr have the same
    outcome. *)
Theorem clear_path_symmetric (self : ChessGame) (fr to : Index) :
  wf_board (board self) ->
  in_bounds fr -> in_bounds to -> fr <> to -> aligned fr to ->
  _require_clear_path self fr to = _require_clear_path self to fr.
Proof.
  intros Hwf Hfr Hto Hne Hal.
  assert (Hne' : to <> fr) by congruence.
  pose proof (aligned_sym fr to Hal) as Hal'.
  assert (Hmove : forall a b, aligned a b ->
             Forall (empty_cell (board self)) (between a b) ->
             Forall (empty_cell (board self)) (between b a)).
  { intros a b Hab Hall. rewrite List.Forall_forall in *.
    intros x Hx. apply Hall. apply between_reverse_In; [apply aligned_sym |];
      assumption. }
  destruct (require_clear_path_outcome self fr to Hwf Hfr Hto Hne Hal)
    as [(Hall & -> & _) | (Hex & ->)];
    destruct (require_clear_path_outcome self to fr Hwf Hto Hfr Hne' Hal')
      as [(Hall' & -> & _) | (Hex' & ->)];
    try reflexivity.
  - destruct (empty_or_occupied _ _ (Hmove fr to Hal Hall) Hex').
  - destruct (empty_or_occupied _ _ (Hmove to fr Hal' Hall') Hex).
Qed.

Lemma clear_path_symmetric_witness :
  _require_clear_path new_game (7, 0) (0, 0) = _require_clear_path new_game (0, 0) (7, 0).
Proof.
  apply (clear_path_symmetric new_game (7, 0) (0, 0)).
  - vm_compute. split; [reflexivity | repeat constructor].
  - unfold in_bounds; simpl; lia.
  - unfold in_bounds; simpl; lia.
  - discriminate.
  - unfold aligned; simpl; lia.
Defined.
